(** * opensearch_dsl.update_by_query: the immutable request builder

    A shallow embedding of [src/opensearch_dsl/update_by_query.py].

    Python objects that the module mutates in place or compares by identity
    live in an explicit store: one component holds the top-level containers
    (the [_script], [_extra] and [_params] dictionaries of a builder, the
    caller's wire mapping, the dictionary [to_dict] returns), the other the
    [UpdateByQuery] instances themselves.  What those containers hold is an
    immutable tree of values: no method of the module ever mutates a nested
    container, so a nested dictionary is represented by its contents.

    Every method is a computation in a state-and-exception monad over that
    store; an exception leaves the store as it was when it was raised.
    [execute], the one method that reaches the transport, runs over the store
    together with the list of calls the transport has received, and a
    connection answers a call in view of the calls before it. *)

From stdpp Require Import gmap strings list fin_maps.

#[local] Set Warnings "-register-all".
#[local] Open Scope string_scope.

(** ** Values *)

(** JSON-compatible data, plus [VObj]: an object that exposes [to_dict()]
    (a query, a nested request), represented by the value that call returns. *)
Inductive value :=
| VNone
| VBool (b : bool)
| VInt (z : Z)
| VStr (s : string)
| VList (l : list value)
| VDict (m : gmap string value)
| VObj (serialized : value).

(** Python truthiness, as used by [if self._script:]. *)
Definition truthy (v : value) : bool :=
  match v with
  | VNone => false
  | VBool b => b
  | VInt z => negb (Z.eqb z 0)
  | VStr s => negb (String.eqb s "")
  | VList l => match l with [] => false | _ => true end
  | VDict m => negb (bool_decide (m = ∅))
  | VObj _ => true
  end.

(** Modelled from the spec: [utils.recursive_to_dict] is not part of the
    source given; section 4.3 says that serialization recursively unwraps any
    nested builder-like value found inside extras and keyword arguments. *)
Fixpoint recursive_to_dict (data : value) : value :=
  match data with
  | VObj d => recursive_to_dict d
  | VList l => VList (map recursive_to_dict l)
  | VDict m => VDict (recursive_to_dict <$> m)
  | _ => data
  end.

(** Data that holds no [to_dict]-object at any depth. *)
Fixpoint plain (v : value) : bool :=
  match v with
  | VObj _ => false
  | VList l => forallb plain l
  | VDict m => map_fold (λ _ x acc, plain x && acc) true m
  | _ => true
  end.

(** ** Exceptions and results *)

Inductive exn :=
| AttributeError (msg : string)
| TypeError (msg : string)
| KeyError (key : string)
| ConstructionError (msg : string)
| TransportError (msg : string)
| DanglingReference.

Inductive res (A : Type) :=
| Ok (a : A)
| Raise (e : exn).
Arguments Ok {A} a.
Arguments Raise {A} e.

(** ** The query value layer *)

Module Query.

(** Modelled from the spec: [query.py] ([Q], [Bool], [~], [&], [to_dict]) is
    not part of the source given.  Section 3 describes a query node as a leaf
    term (kind plus parameters) or a compound [bool] node holding ordered
    lists of children under [must], [filter] and [must_not]; the empty marker
    is the unset proxy, [None] below. *)
Inductive QueryNode :=
| Leaf (kind : string) (params : gmap string value)
| Bool (must filter must_not : list QueryNode).

(** Modelled from the spec: the serialized form of section 6 and of the
    scenarios of section 8; a clause is emitted only when it has children. *)
Definition clause (name : string) (children : list value) : gmap string value :=
  match children with
  | [] => ∅
  | _ => {[ name := VList children ]}
  end.

Fixpoint to_dict (q : QueryNode) : value :=
  match q with
  | Leaf kind params => VDict {[ kind := VDict params ]}
  | Bool must filter must_not =>
      VDict {[ "bool" :=
        VDict (clause "must" (map to_dict must)
               ∪ clause "filter" (map to_dict filter)
               ∪ clause "must_not" (map to_dict must_not)) ]}
  end.

Definition clause_of (p : gmap string (option (list QueryNode))) (name : string)
  : option (list QueryNode) :=
  match p !! name with
  | Some r => r
  | None => Some []
  end.

Definition bool_clauses : gset string := {[ "must"; "filter"; "must_not" ]}.

(** Modelled from the spec: [Q] applied to a wire mapping parses it into a
    query node; a malformed term is a construction error ([None]).  The
    mapping must have exactly one key; under ["bool"] the clauses are lists of
    sub-queries, any other key names a leaf. *)
Fixpoint Q_dict (v : value) : option QueryNode :=
  match v with
  | VDict d =>
      let bodies :=
        (λ body,
           (body,
            match body with
            | VDict p =>
                Some ((λ cl, match cl with
                             | VList l => mapM Q_dict l
                             | _ => None
                             end) <$> p)
            | _ => None
            end)) <$> d in
      match map_to_list bodies with
      | [(kind, (VDict params, Some p))] =>
          if decide (kind = "bool") then
            if decide (dom p ⊆ bool_clauses) then
              must ← clause_of p "must";
              filter ← clause_of p "filter";
              must_not ← clause_of p "must_not";
              Some (Bool must filter must_not)
            else None
          else Some (Leaf kind params)
      | _ => None
      end
  | _ => None
  end.

(** The three ways [Q] is called: with a name and keyword parameters, with
    a raw mapping, with a query object. *)
Inductive Q_args :=
| QName (name : string) (params : gmap string value)
| QWire (d : value)
| QNode (q : QueryNode).

Definition Q (a : Q_args) : option QueryNode :=
  match a with
  | QName name params => Q_dict (VDict {[ name := VDict params ]})
  | QWire d => Q_dict d
  | QNode q => Some q
  end.

(** Modelled from the spec: [negate] of section 4.1. *)
Definition negate (a : QueryNode) : QueryNode :=
  match a with
  | Bool [] [] [child] => child
  | _ => Bool [] [] [a]
  end.

(** The [must] and [filter] children an operand contributes to a
    conjunction: a compound with only those clauses is spliced in. *)
Definition conjuncts (a : QueryNode) : list QueryNode * list QueryNode :=
  match a with
  | Bool must filter [] => (must, filter)
  | _ => ([a], [])
  end.

(** Modelled from the spec: [combine] of section 4.1; [None] is the empty
    marker and the identity element. *)
Definition combine (a b : option QueryNode) : option QueryNode :=
  match a, b with
  | None, _ => b
  | _, None => a
  | Some x, Some y =>
      Some (Bool ((conjuncts x).1 ++ (conjuncts y).1)
                 ((conjuncts x).2 ++ (conjuncts y).2) [])
  end.

End Query.

Export Query.

(** ** Instances and the store *)

Definition loc := positive.

(** The classes a response may be wrapped in: the default of the module, or
    one supplied through [response_class]. *)
Inductive resp_class :=
| UpdateByQueryResponse
| CustomResponse (name : string).

(** The response wrapper is constructed with the owning builder and the raw
    reply; the module does not look inside. *)
Record Response := {
  r_class : resp_class;
  r_search : loc;
  r_raw : value;
}.

(** The attributes of an [UpdateByQuery] instance.  [_using], [_index],
    [_params] and [_extra] are inherited from [Request]; [_proxied] is the
    query held by the instance's own [QueryProxy] ([None] when unset);
    [_response] is [None] until [execute] has set the attribute. *)
Record UpdateByQuery := {
  _using : string;
  _index : option (list string);
  _params : loc;
  _extra : loc;
  _response_class : resp_class;
  _script : loc;
  _proxied : option QueryNode;
  _response : option Response;
}.

Record heap := Heap {
  cells : gmap loc value;
  objs : gmap loc UpdateByQuery;
}.

Definition M (A : Type) : Type := heap → res A * heap.

#[export] Instance M_ret : MRet M := λ A a h, (Ok a, h).

#[export] Instance M_bind : MBind M := λ A B k m h,
  match m h with
  | (Ok a, h') => k a h'
  | (Raise e, h') => (Raise e, h')
  end.

Definition raise {A} (e : exn) : M A := λ h, (Raise e, h).

Definition lift {A} (e : exn) (o : option A) : M A :=
  match o with
  | Some a => mret a
  | None => raise e
  end.

(** Allocation of a fresh container, reads and writes. *)
Definition alloc (v : value) : M loc := λ h,
  let l := fresh (dom (cells h)) in
  (Ok l, Heap (<[l := v]> (cells h)) (objs h)).

Definition load (l : loc) : M value := λ h,
  match cells h !! l with
  | Some v => (Ok v, h)
  | None => (Raise DanglingReference, h)
  end.

Definition store (l : loc) (v : value) : M unit := λ h,
  (Ok tt, Heap (<[l := v]> (cells h)) (objs h)).

Definition new_obj (o : UpdateByQuery) : M loc := λ h,
  let l := fresh (dom (objs h)) in
  (Ok l, Heap (cells h) (<[l := o]> (objs h))).

Definition get_obj (l : loc) : M UpdateByQuery := λ h,
  match objs h !! l with
  | Some o => (Ok o, h)
  | None => (Raise DanglingReference, h)
  end.

Definition set_obj (l : loc) (o : UpdateByQuery) : M unit := λ h,
  (Ok tt, Heap (cells h) (<[l := o]> (objs h))).

(** Attribute assignment on an instance. *)
Definition set_params (p : loc) (o : UpdateByQuery) : UpdateByQuery :=
  {| _using := _using o; _index := _index o; _params := p; _extra := _extra o;
     _response_class := _response_class o; _script := _script o;
     _proxied := _proxied o; _response := _response o |}.

Definition set_extra (e : loc) (o : UpdateByQuery) : UpdateByQuery :=
  {| _using := _using o; _index := _index o; _params := _params o; _extra := e;
     _response_class := _response_class o; _script := _script o;
     _proxied := _proxied o; _response := _response o |}.

Definition set_response_class (c : resp_class) (o : UpdateByQuery) : UpdateByQuery :=
  {| _using := _using o; _index := _index o; _params := _params o;
     _extra := _extra o; _response_class := c; _script := _script o;
     _proxied := _proxied o; _response := _response o |}.

Definition set_script (s : loc) (o : UpdateByQuery) : UpdateByQuery :=
  {| _using := _using o; _index := _index o; _params := _params o;
     _extra := _extra o; _response_class := _response_class o; _script := s;
     _proxied := _proxied o; _response := _response o |}.

Definition set_proxied (q : option QueryNode) (o : UpdateByQuery) : UpdateByQuery :=
  {| _using := _using o; _index := _index o; _params := _params o;
     _extra := _extra o; _response_class := _response_class o;
     _script := _script o; _proxied := q; _response := _response o |}.

Definition set_response (r : option Response) (o : UpdateByQuery) : UpdateByQuery :=
  {| _using := _using o; _index := _index o; _params := _params o;
     _extra := _extra o; _response_class := _response_class o;
     _script := _script o; _proxied := _proxied o; _response := r |}.

Definition setattr (self : loc) (f : UpdateByQuery → UpdateByQuery) : M unit :=
  o ← get_obj self; set_obj self (f o).

(** The dictionary methods the module calls. *)
Definition dict_copy (l : loc) : M loc :=
  v ← load l;
  match v with
  | VDict m => alloc (VDict m)
  | VList x => alloc (VList x)
  | _ => raise (AttributeError "copy")
  end.

Definition dict_contains (l : loc) (key : string) : M bool :=
  v ← load l;
  match v with
  | VDict m => mret (bool_decide (is_Some (m !! key)))
  | _ => raise (TypeError "in")
  end.

Definition dict_pop (l : loc) (key : string) : M value :=
  v ← load l;
  match v with
  | VDict m =>
      match m !! key with
      | Some x => _ ← store l (VDict (delete key m)); mret x
      | None => raise (KeyError key)
      end
  | _ => raise (AttributeError "pop")
  end.

Definition dict_setitem (l : loc) (key : string) (x : value) : M unit :=
  v ← load l;
  match v with
  | VDict m => store l (VDict (<[key := x]> m))
  | _ => raise (TypeError "setitem")
  end.

(** [target.update(other)]: the entries of [other] win. *)
Definition dict_update (l : loc) (other : value) : M unit :=
  v ← load l;
  match v, other with
  | VDict m, VDict m' => store l (VDict (m' ∪ m))
  | VDict _, _ => raise (TypeError "update")
  | _, _ => raise (AttributeError "update")
  end.

(** ** The transport collaborator *)

(** A call of [update_by_query] as a connection receives it: the name the
    connection was resolved from, the index, the body and the extra call
    parameters. *)
Record call := {
  call_using : string;
  call_index : option (list string);
  call_body : value;
  call_params : gmap string value;
}.

(** Modelled from the spec: the connection a name resolves to exposes
    [update_by_query] (index, body, extra call parameters), which returns the
    raw reply or raises (section 6).  The remote store has state of its own:
    the answer to a call may depend on the calls received before it. *)
Definition client : Type := list call → call → res value.

(** The store of the program together with the calls the transport has
    received, oldest first. *)
Record world := World {
  mem : heap;
  calls : list call;
}.

Definition W (A : Type) : Type := world → res A * world.

#[export] Instance W_ret : MRet W := λ A a w, (Ok a, w).

#[export] Instance W_bind : MBind W := λ A B k m w,
  match m w with
  | (Ok a, w') => k a w'
  | (Raise e, w') => (Raise e, w')
  end.

(** A computation on the store: the transport is not called. *)
Definition in_store {A} (m : M A) : W A := λ w,
  ((m (mem w)).1, World (m (mem w)).2 (calls w)).

(** Modelled from the spec: one call of [update_by_query] on a connection
    (section 6): the connection receives the call and answers it, with the
    raw reply or an exception. *)
Definition update_by_query (c : client) (k : call) : W value := λ w,
  (c (calls w) k, World (mem w) (calls w ++ [k])%list).

(** Modelled from the spec: [connections.get_connection] looks the name up in
    the registry at call time; an unknown name is an error. *)
Definition get_connection (registry : gmap string client) (alias : string) : M client :=
  lift (KeyError alias) (registry !! alias).

(** ** The base request *)

Module Request.

(** Modelled from the spec: [search.Request.__init__] is not part of the
    source given; it sets the addressing fields, empty call parameters and the
    extras, each mutable container being the instance's own. *)
Definition __init__ (using_ : string) (index : option (list string))
    (extra : gmap string value) : M (loc * loc) :=
  p ← alloc (VDict ∅);
  e ← alloc (VDict extra);
  mret (p, e).

(** Modelled from the spec: [search.Request._clone] is not part of the source
    given; it builds a new instance of the receiver's class with the same
    addressing fields and gives it copies of the receiver's extras and call
    parameters (sections 2 and 9: a shallow clone that never reuses the
    parent's mutable containers).  [cls] is the constructor of the receiver's
    class. *)
Definition _clone (cls : string → option (list string) → M loc) (self : loc) : M loc :=
  o ← get_obj self;
  s ← cls (_using o) (_index o);
  e ← dict_copy (_extra o);
  _ ← setattr s (set_extra e);
  p ← dict_copy (_params o);
  _ ← setattr s (set_params p);
  mret s.

End Request.

(** ** The builder *)

Module UpdateByQuery.

(** [UpdateByQuery.__init__]: the base initialiser, then the default response
    class, an empty script mapping and an unset query proxy. *)
Definition __init__ (using_ : string) (index : option (list string))
    (extra : gmap string value) : M loc :=
  '(p, e) ← Request.__init__ using_ index extra;
  s ← alloc (VDict ∅);
  new_obj {| _using := using_; _index := index; _params := p; _extra := e;
             _response_class := UpdateByQueryResponse; _script := s;
             _proxied := None; _response := None |}.

(** [_clone] (lines 66-77): the clone of the base class, then the response
    class, a copy of the script mapping and the query of the receiver. *)
Definition _clone (self : loc) : M loc :=
  ubq ← Request._clone (λ using_ index, __init__ using_ index ∅) self;
  o ← get_obj self;
  _ ← setattr ubq (set_response_class (_response_class o));
  o ← get_obj self;
  s ← dict_copy (_script o);
  _ ← setattr ubq (set_script s);
  o ← get_obj self;
  _ ← setattr ubq (set_proxied (_proxied o));
  mret ubq.

(** Modelled from the spec: [search.QueryProxy.__call__], reached as
    [self.query(...)], is not part of the source given; section 4.2 says it
    combines the term into the query held by a clone of the owning builder and
    returns that clone. *)
Definition query (self : loc) (a : Q_args) : M loc :=
  s ← _clone self;
  q ← lift (ConstructionError "Q") (Q a);
  o ← get_obj s;
  _ ← set_obj s (set_proxied (combine (_proxied o) (Some q)) o);
  mret s.

(** [filter] and [exclude] (lines 38-42). *)
Definition filter (self : loc) (a : Q_args) : M loc :=
  q ← lift (ConstructionError "Q") (Q a);
  query self (QNode (Bool [] [q] [])).

Definition exclude (self : loc) (a : Q_args) : M loc :=
  q ← lift (ConstructionError "Q") (Q a);
  query self (QNode (Bool [] [negate q] [])).

(** [response_class] (lines 79-85). *)
Definition response_class (self : loc) (cls : resp_class) : M loc :=
  ubq ← _clone self;
  _ ← setattr ubq (set_response_class cls);
  mret ubq.

(** [update_from_dict] (lines 87-98).  [self._script = d.pop("script")] binds
    the attribute to the popped object itself; a nested object being
    represented by its contents, the attribute is given a container that
    holds them. *)
Definition update_from_dict (self : loc) (d : loc) : M loc :=
  d ← dict_copy d;
  has_query ← dict_contains d "query";
  _ ← (if has_query : bool then
         v ← dict_pop d "query";
         q ← lift (ConstructionError "Q") (Q (QWire v));
         setattr self (set_proxied (Some q))
       else mret tt);
  has_script ← dict_contains d "script";
  _ ← (if has_script : bool then
         v ← dict_pop d "script";
         s ← alloc v;
         setattr self (set_script s)
       else mret tt);
  o ← get_obj self;
  rest ← load d;
  _ ← dict_update (_extra o) rest;
  mret self.

(** [from_dict] (lines 44-64). *)
Definition from_dict (d : loc) : M loc :=
  u ← __init__ "default" None ∅;
  _ ← update_from_dict u d;
  mret u.

(** [script] (lines 100-119).  Keyword arguments reach the callee as a
    dictionary of its own, hence by value. *)
Definition script (self : loc) (kwargs : gmap string value) : M loc :=
  ubq ← _clone self;
  o ← get_obj ubq;
  s ← load (_script o);
  _ ← (if truthy s then
         s' ← alloc (VDict ∅);
         setattr ubq (set_script s')
       else mret tt);
  o ← get_obj ubq;
  _ ← dict_update (_script o) (VDict kwargs);
  mret ubq.

(** [to_dict] (lines 121-137).  The query proxy is truthy when it holds a
    query; [d["script"] = self._script] stores the contents of the script
    container. *)
Definition to_dict (self : loc) (kwargs : gmap string value) : M loc :=
  d ← alloc (VDict ∅);
  o ← get_obj self;
  _ ← match _proxied o with
      | Some q => dict_setitem d "query" (Query.to_dict q)
      | None => mret tt
      end;
  o ← get_obj self;
  s ← load (_script o);
  _ ← (if truthy s then dict_setitem d "script" s else mret tt);
  o ← get_obj self;
  e ← load (_extra o);
  _ ← dict_update d (recursive_to_dict e);
  _ ← dict_update d (recursive_to_dict (VDict kwargs));
  mret d.

(** [execute] (lines 139-152): the connection is resolved first; the
    response class, the index, the body and the call parameters are read
    before the transport is called, once; an exception of that call ends
    [execute]; a reply is wrapped and cached, and the response returned. *)
Definition execute (registry : gmap string client) (self : loc) : W Response :=
  o ← in_store (get_obj self);
  let alias := _using o in
  opensearch ← in_store (get_connection registry alias);
  o ← in_store (get_obj self);
  let cls := _response_class o in
  let index := _index o in
  body ← in_store (to_dict self ∅);
  body ← in_store (load body);
  o ← in_store (get_obj self);
  params ← in_store (load (_params o));
  match params with
  | VDict params =>
      raw ← update_by_query opensearch
              {| call_using := alias; call_index := index; call_body := body;
                 call_params := params |};
      let r := {| r_class := cls; r_search := self; r_raw := raw |} in
      _ ← in_store (setattr self (set_response (Some r)));
      o ← in_store (get_obj self);
      in_store (lift (AttributeError "_response") (_response o))
  | _ => in_store (raise (TypeError "**"))
  end.

End UpdateByQuery.

(** ** Specification vocabulary *)

(** [wp m h Φ]: running [m] in the store [h] ends, with a result or an
    exception, in a store that satisfies [Φ]. *)
Definition wp {A} (m : M A) (h : heap) (Φ : res A → heap → Prop) : Prop :=
  Φ (m h).1 (m h).2.

(** [wpw m w Φ]: the same for a computation that may call the transport. *)
Definition wpw {A} (m : W A) (w : world) (Φ : res A → world → Prop) : Prop :=
  Φ (m w).1 (m w).2.

(** [ext h h']: [h'] has every container and every instance of [h],
    unchanged, and possibly new ones. *)
Definition ext (h h' : heap) : Prop :=
  cells h ⊆ cells h' ∧ objs h ⊆ objs h'.

Definition is_dict (v : value) : bool :=
  match v with
  | VDict _ => true
  | _ => false
  end.

Definition dict_at (h : heap) (l : loc) : bool :=
  match cells h !! l with
  | Some v => is_dict v
  | None => false
  end.

(** A builder of the data model: a live instance whose script, extras and
    call parameters are mappings. *)
Definition wf (h : heap) (b : loc) : bool :=
  match objs h !! b with
  | Some o => dict_at h (_script o) && dict_at h (_extra o) && dict_at h (_params o)
  | None => false
  end.

(** The wire body [to_dict] builds from a query, a script, the extras and
    the keyword arguments, in the order of its statements. *)
Definition query_part (q : option QueryNode) (d : gmap string value) : gmap string value :=
  match q with
  | Some q => <["query" := Query.to_dict q]> d
  | None => d
  end.

Definition script_part (s : value) (d : gmap string value) : gmap string value :=
  if truthy s then <["script" := s]> d else d.

Definition body_of (q : option QueryNode) (s : value) (extra kwargs : gmap string value)
  : gmap string value :=
  (recursive_to_dict <$> kwargs)
  ∪ ((recursive_to_dict <$> extra) ∪ script_part s (query_part q ∅)).

(** What a builder holds, read off the store: its query, the contents of its
    script container and of its extras. *)
Definition state_of (h : heap) (b : loc) : option (option QueryNode * value * value) :=
  o ← objs h !! b;
  s ← cells h !! _script o;
  e ← cells h !! _extra o;
  Some (_proxied o, s, e).

(** The mapping [b.to_dict] evaluates to, for the keyword arguments
    [kwargs], in the store [h]. *)
Definition to_dict_view (h : heap) (b : loc) (kwargs : gmap string value) : option value :=
  match UpdateByQuery.to_dict b kwargs h with
  | (Ok d, h') => cells h' !! d
  | (Raise _, _) => None
  end.

(** [cloned h h' o o' q s c]: the instance [o'] of [h'] is a clone of the
    instance [o] of [h] that holds the query [q], the script [s] and the
    response class [c].  It has the addressing fields of [o] and no cached
    response; its script, extras and call parameters are containers of its
    own, new in [h'], the last two with the contents of those of [o]. *)
Definition cloned (h h' : heap) (o o' : UpdateByQuery)
    (q : option QueryNode) (s : value) (c : resp_class) : Prop :=
  _using o' = _using o ∧ _index o' = _index o ∧
  _response_class o' = c ∧ _proxied o' = q ∧ _response o' = None ∧
  cells h !! _script o' = None ∧ cells h !! _extra o' = None ∧
  cells h !! _params o' = None ∧
  cells h' !! _script o' = Some s ∧
  cells h' !! _extra o' = cells h !! _extra o ∧
  cells h' !! _params o' = cells h !! _params o ∧
  _script o' ≠ _extra o' ∧ _script o' ≠ _params o' ∧ _extra o' ≠ _params o'.

(** The mutators of the builder. *)
Inductive mutator :=
| MFilter (a : Q_args)
| MExclude (a : Q_args)
| MScript (kwargs : gmap string value)
| MResponseClass (cls : resp_class).

Definition apply_mutator (m : mutator) (b : loc) : M loc :=
  match m with
  | MFilter a => UpdateByQuery.filter b a
  | MExclude a => UpdateByQuery.exclude b a
  | MScript kwargs => UpdateByQuery.script b kwargs
  | MResponseClass cls => UpdateByQuery.response_class b cls
  end.

(** What a mutator changes: the query, the script and the response class of
    the clone it returns, given those of the receiver; [None] when the query
    layer rejects the term. *)
Definition mutator_effect (m : mutator) (q : option QueryNode) (s : value)
    (c : resp_class) : option (option QueryNode * value * resp_class) :=
  match m with
  | MFilter a =>
      t ← Q a; Some (combine q (Some (Bool [] [t] [])), s, c)
  | MExclude a =>
      t ← Q a; Some (combine q (Some (Bool [] [negate t] [])), s, c)
  | MScript kwargs => Some (q, VDict kwargs, c)
  | MResponseClass cls => Some (q, s, cls)
  end.

(** The term a mutator is given is one the query layer accepts. *)
Definition accepted (m : mutator) : bool :=
  match m with
  | MFilter a | MExclude a => bool_decide (is_Some (Q a))
  | _ => true
  end.

(** Serialize, then rebuild: [from_dict(b.to_dict())]. *)
Definition roundtrip (b : loc) : M loc :=
  d ← UpdateByQuery.to_dict b ∅;
  UpdateByQuery.from_dict d.

(** The size of a value, for induction on the nesting of containers. *)
Fixpoint vsize (v : value) : nat :=
  match v with
  | VObj w => S (vsize w)
  | VList l => S (foldr (λ x n, vsize x + n) 0 l)
  | VDict m => S (map_fold (λ _ x n, vsize x + n) 0 m)
  | _ => 0
  end.

(** A query node of the data model: ["bool"] names the compound, never a
    leaf. *)
Fixpoint well_formed (q : QueryNode) : bool :=
  match q with
  | Leaf kind _ => bool_decide (kind ≠ "bool")
  | Bool must filter must_not =>
      forallb well_formed must && forallb well_formed filter
      && forallb well_formed must_not
  end.

(** The two passes of [Q_dict] over the body of a term, and the clauses
    [Query.to_dict] emits, named for the proofs. *)
Definition parse_clause (cl : value) : option (list QueryNode) :=
  match cl with
  | VList l => mapM Q_dict l
  | _ => None
  end.

Definition parse_body (body : value)
  : value * option (gmap string (option (list QueryNode))) :=
  (body,
   match body with
   | VDict p => Some (parse_clause <$> p)
   | _ => None
   end).

Definition clauses (must filter must_not : list value) : gmap string value :=
  clause "must" must ∪ clause "filter" filter ∪ clause "must_not" must_not.

(** The lookup table of the keys [to_dict] emits itself. *)
Definition base_lookup (q : option QueryNode) (s : value) (key : string) : option value :=
  if decide (key = "query") then Query.to_dict <$> q
  else if decide (key = "script") then (if truthy s then Some s else None)
  else None.

(** A compound that is a single [must_not] child which is again a single
    [must_not] child. *)
Definition doubly_negated (q : QueryNode) : bool :=
  match q with
  | Bool [] [] [Bool [] [] [_]] => true
  | _ => false
  end.

(** ** Example programs and stores *)

Definition fresh_store : heap := Heap ∅ ∅.

Definition result_of (r : res loc * heap) : loc :=
  match r.1 with
  | Ok b => b
  | Raise _ => 1%positive
  end.

(** A builder with an index, extras, a filter and a script. *)
Definition build_example : M loc :=
  b ← UpdateByQuery.__init__ "default" (Some ["posts"]) {[ "size" := VInt 5 ]};
  b ← UpdateByQuery.filter b (QName "term" {[ "published" := VBool true ]});
  UpdateByQuery.script b {[ "source" := VStr "ctx._source.likes++" ]}.

Definition example_store : heap := (build_example fresh_store).2.
Definition example_builder : loc := result_of (build_example fresh_store).

Definition example_instance : UpdateByQuery :=
  default {| _using := ""; _index := None; _params := 1%positive;
             _extra := 1%positive; _response_class := UpdateByQueryResponse;
             _script := 1%positive; _proxied := None; _response := None |}
          (objs example_store !! example_builder).

(** A builder constructed with extras that carry a ["script"] key of their
    own, then given a script. *)
Definition build_shadowed : M loc :=
  b ← UpdateByQuery.__init__ "default" None
        {[ "script" := VDict {[ "source" := VStr "b" ]} ]};
  UpdateByQuery.script b {[ "source" := VStr "a" ]}.

Definition shadowed_store : heap := (build_shadowed fresh_store).2.
Definition shadowed_builder : loc := result_of (build_shadowed fresh_store).

(** A builder constructed with extras that hold a query object. *)
Definition build_nested : M loc :=
  UpdateByQuery.__init__ "default" None
    {[ "extra_q" :=
       VObj (VDict {[ "term" := VDict {[ "category" := VStr "conference" ]} ]}) ]}.

Definition nested_store : heap := (build_nested fresh_store).2.
Definition nested_builder : loc := result_of (build_nested fresh_store).

(** The example builder next to a wire mapping held by the caller. *)
Definition build_wire : M loc :=
  _ ← build_example;
  alloc (VDict {[ "query" := VDict {[ "match_all" := VDict ∅ ]};
                  "script" := VDict {[ "source" := VStr "x" ]};
                  "conflicts" := VStr "proceed" ]}).

Definition wire_store : heap := (build_wire fresh_store).2.
Definition wire_mapping : loc := result_of (build_wire fresh_store).

Definition failing_client : client :=
  λ _ _, Raise (TransportError "version conflict").

Definition counting_client : client :=
  λ _ _, Ok (VDict {[ "updated" := VInt 3 ]}).

(** A connection that refuses the first call it receives and answers every
    later one. *)
Definition flaky_client : client :=
  λ history _,
    match history with
    | [] => Raise (TransportError "version conflict")
    | _ => Ok (VDict {[ "updated" := VInt 3 ]})
    end.

(** The call [execute] makes for an instance whose script and extras have
    the given contents. *)
Definition call_of (o : UpdateByQuery) (s : value) (me mp : gmap string value) : call :=
  {| call_using := _using o; call_index := _index o;
     call_body := VDict (body_of (_proxied o) s me ∅); call_params := mp |}.

(** [UpdateByQuery().exclude("term", archived=True).to_dict()] and the
    mapping section 8 expects of it. *)
Definition exclude_scenario : M loc :=
  b ← UpdateByQuery.__init__ "default" None ∅;
  b ← UpdateByQuery.exclude b (QName "term" {[ "archived" := VBool true ]});
  UpdateByQuery.to_dict b ∅.

Definition exclude_scenario_body : gmap string value :=
  {[ "query" :=
     VDict {[ "bool" :=
       VDict {[ "filter" := VList [
         VDict {[ "bool" :=
           VDict {[ "must_not" := VList [
             VDict {[ "term" := VDict {[ "archived" := VBool true ]} ]} ] ]} ]} ] ]} ]} ]}.

(** Two more scenarios of section 8. *)
Definition filter_scenario : M loc :=
  b ← UpdateByQuery.__init__ "default" None ∅;
  b ← UpdateByQuery.filter b (QName "term" {[ "published" := VBool true ]});
  UpdateByQuery.to_dict b ∅.

Definition from_dict_scenario : M loc :=
  d ← alloc (VDict {[ "query" := VDict {[ "match_all" := VDict ∅ ]};
                      "script" := VDict {[ "source" := VStr "x" ]} ]});
  b ← UpdateByQuery.from_dict d;
  UpdateByQuery.to_dict b ∅.

(** ** Vocabulary and examples for the further properties *)

(** The addressing and configuration of an instance, and its cached
    response: what [to_dict] does not serialize. *)
Definition same_config (o o' : UpdateByQuery) : Prop :=
  _using o' = _using o ∧ _index o' = _index o ∧ _params o' = _params o ∧
  _response_class o' = _response_class o ∧ _response o' = _response o.

(** The JSON scalars: values without a [copy] method. *)
Definition scalar (v : value) : bool :=
  match v with
  | VNone | VBool _ | VInt _ | VStr _ => true
  | _ => false
  end.

(** Everything an instance holds but the identity of its containers. *)
Definition snapshot (h : heap) (b : loc)
  : option (string * option (list string) * resp_class * option Response
            * option QueryNode * value * value * value) :=
  o ← objs h !! b;
  s ← cells h !! _script o;
  e ← cells h !! _extra o;
  p ← cells h !! _params o;
  Some (_using o, _index o, _response_class o, _response o, _proxied o, s, e, p).

(** The field a mutator sets. *)
Inductive field := FQuery | FScript | FResponseClass.

Definition field_of (m : mutator) : field :=
  match m with
  | MFilter _ | MExclude _ => FQuery
  | MScript _ => FScript
  | MResponseClass _ => FResponseClass
  end.

Definition chain (m1 m2 : mutator) (b : loc) : M loc :=
  b1 ← apply_mutator m1 b;
  apply_mutator m2 b1.

(** The example builder and a clone of it with another response class. *)
Definition build_reclassed : M loc :=
  b ← build_example;
  UpdateByQuery.response_class b (CustomResponse "Audit").

Definition reclassed_store : heap := (build_reclassed fresh_store).2.
Definition reclassed_builder : loc := result_of (build_reclassed fresh_store).

(** A builder rebuilt from a wire mapping whose script is a string. *)
Definition build_string_script : M loc :=
  d ← alloc (VDict {[ "script" := VStr "ctx._source.likes++" ]});
  UpdateByQuery.from_dict d.

Definition string_script_store : heap := (build_string_script fresh_store).2.
Definition string_script_builder : loc := result_of (build_string_script fresh_store).

Definition string_script_instance : UpdateByQuery :=
  default example_instance (objs string_script_store !! string_script_builder).

(** What [from_dict] followed by [to_dict] makes of a wire mapping: a script
    that is not truthy is dropped. *)
Definition round_tripped (md : gmap string value) : gmap string value :=
  match md !! "script" with
  | Some s => if truthy s then md else delete "script" md
  | None => md
  end.

(** * Proofs *)

(** ** The monad *)

Lemma wp_ret {A} (a : A) h Φ : Φ (Ok a) h → wp (mret a) h Φ.
Proof. done. Qed.

Lemma wp_raise {A} e h (Φ : res A → heap → Prop) : Φ (Raise e) h → wp (raise e) h Φ.
Proof. done. Qed.

Lemma wp_bind {A B} (m : M A) (k : A → M B) h Φ :
  wp m h (λ r h', match r with
                  | Ok a => wp (k a) h' Φ
                  | Raise e => Φ (Raise e) h'
                  end) →
  wp (m ≫= k) h Φ.
Proof.
  unfold wp, mbind, M_bind. destruct (m h) as [[a|e] h']; simpl; auto.
Qed.

Lemma wp_mono {A} (m : M A) h (Φ Ψ : res A → heap → Prop) :
  wp m h Φ → (∀ r h', Φ r h' → Ψ r h') → wp m h Ψ.
Proof. unfold wp. auto. Qed.

Lemma wp_run {A} (m : M A) h Φ : wp m h Φ → ∃ r h', m h = (r, h') ∧ Φ r h'.
Proof. unfold wp. destruct (m h) as [r h']. eauto. Qed.

Lemma wp_lift_some {A} e (a : A) h Φ : Φ (Ok a) h → wp (lift e (Some a)) h Φ.
Proof. done. Qed.

Lemma wp_lift_none {A} e h (Φ : res A → heap → Prop) :
  Φ (Raise e) h → wp (lift e None) h Φ.
Proof. done. Qed.

(** ** The store *)

Lemma ext_refl h : ext h h.
Proof. split; reflexivity. Qed.

Lemma ext_trans h1 h2 h3 : ext h1 h2 → ext h2 h3 → ext h1 h3.
Proof. intros [??] [??]. split; etrans; eauto. Qed.

Lemma ext_cell h h' l v : ext h h' → cells h !! l = Some v → cells h' !! l = Some v.
Proof. intros [H _] ?. by eapply lookup_weaken. Qed.

Lemma ext_obj h h' l o : ext h h' → objs h !! l = Some o → objs h' !! l = Some o.
Proof. intros [_ H] ?. by eapply lookup_weaken. Qed.

Lemma ext_alloc h l v : cells h !! l = None → ext h (Heap (<[l := v]> (cells h)) (objs h)).
Proof. intros. split; simpl; [by apply insert_subseteq | done]. Qed.

Lemma ext_new_obj h l o : objs h !! l = None → ext h (Heap (cells h) (<[l := o]> (objs h))).
Proof. intros. split; simpl; [done | by apply insert_subseteq]. Qed.

Lemma wp_alloc v h Φ :
  (∀ l, cells h !! l = None → Φ (Ok l) (Heap (<[l := v]> (cells h)) (objs h))) →
  wp (alloc v) h Φ.
Proof.
  intros H. apply H. apply not_elem_of_dom, is_fresh.
Qed.

Lemma wp_load l v h Φ : cells h !! l = Some v → Φ (Ok v) h → wp (load l) h Φ.
Proof. intros Hl H. unfold wp, load. by rewrite Hl. Qed.

Lemma wp_store l v h Φ :
  Φ (Ok tt) (Heap (<[l := v]> (cells h)) (objs h)) → wp (store l v) h Φ.
Proof. done. Qed.

Lemma wp_new_obj o h Φ :
  (∀ l, objs h !! l = None → Φ (Ok l) (Heap (cells h) (<[l := o]> (objs h)))) →
  wp (new_obj o) h Φ.
Proof.
  intros H. apply H. apply not_elem_of_dom, is_fresh.
Qed.

Lemma wp_get_obj l o h Φ : objs h !! l = Some o → Φ (Ok o) h → wp (get_obj l) h Φ.
Proof. intros Hl H. unfold wp, get_obj. by rewrite Hl. Qed.

Lemma wp_set_obj l o h Φ :
  Φ (Ok tt) (Heap (cells h) (<[l := o]> (objs h))) → wp (set_obj l o) h Φ.
Proof. done. Qed.

Lemma wp_setattr l f o h Φ :
  objs h !! l = Some o →
  Φ (Ok tt) (Heap (cells h) (<[l := f o]> (objs h))) →
  wp (setattr l f) h Φ.
Proof.
  intros Hl H. apply wp_bind. eapply wp_get_obj; [done|]. by apply wp_set_obj.
Qed.

Lemma ext_insert_cell h h' l v :
  ext h h' → cells h !! l = None → ext h (Heap (<[l := v]> (cells h')) (objs h')).
Proof. intros [??] ?. split; simpl; [by apply insert_subseteq_r | done]. Qed.

Lemma ext_insert_obj h h' l o :
  ext h h' → objs h !! l = None → ext h (Heap (cells h') (<[l := o]> (objs h'))).
Proof. intros [??] ?. split; simpl; [done | by apply insert_subseteq_r]. Qed.

Lemma ext_fresh_cell h h' l : ext h h' → cells h' !! l = None → cells h !! l = None.
Proof.
  intros [H _] Hl. destruct (cells h !! l) eqn:E; [|done].
  eapply lookup_weaken in E; [|done]. congruence.
Qed.

Lemma ext_fresh_obj h h' l : ext h h' → objs h' !! l = None → objs h !! l = None.
Proof.
  intros [_ H] Hl. destruct (objs h !! l) eqn:E; [|done].
  eapply lookup_weaken in E; [|done]. congruence.
Qed.

(** ** The dictionary methods *)

Lemma wp_dict_copy l m h Φ :
  cells h !! l = Some (VDict m) →
  (∀ l', cells h !! l' = None →
         Φ (Ok l') (Heap (<[l' := VDict m]> (cells h)) (objs h))) →
  wp (dict_copy l) h Φ.
Proof.
  intros Hl H. apply wp_bind. eapply wp_load; [done|]. by apply wp_alloc.
Qed.

Lemma wp_dict_contains l m key h Φ :
  cells h !! l = Some (VDict m) →
  Φ (Ok (bool_decide (is_Some (m !! key)))) h →
  wp (dict_contains l key) h Φ.
Proof.
  intros Hl H. apply wp_bind. eapply wp_load; [done|]. by apply wp_ret.
Qed.

Lemma wp_dict_pop l m key x h Φ :
  cells h !! l = Some (VDict m) → m !! key = Some x →
  Φ (Ok x) (Heap (<[l := VDict (delete key m)]> (cells h)) (objs h)) →
  wp (dict_pop l key) h Φ.
Proof.
  intros Hl Hk H. apply wp_bind. eapply wp_load; [done|]. simpl. rewrite Hk.
  apply wp_bind, wp_store. by apply wp_ret.
Qed.

Lemma wp_dict_setitem l m key x h Φ :
  cells h !! l = Some (VDict m) →
  Φ (Ok tt) (Heap (<[l := VDict (<[key := x]> m)]> (cells h)) (objs h)) →
  wp (dict_setitem l key x) h Φ.
Proof.
  intros Hl H. apply wp_bind. eapply wp_load; [done|]. by apply wp_store.
Qed.

Lemma wp_dict_update l m m' h Φ :
  cells h !! l = Some (VDict m) →
  Φ (Ok tt) (Heap (<[l := VDict (m' ∪ m)]> (cells h)) (objs h)) →
  wp (dict_update l (VDict m')) h Φ.
Proof.
  intros Hl H. apply wp_bind. eapply wp_load; [done|]. by apply wp_store.
Qed.

(** ** Construction and cloning *)

Lemma wp___init__ u i ex h Φ :
  (∀ p e s b,
     cells h !! p = None → cells h !! e = None → cells h !! s = None →
     p ≠ e → p ≠ s → e ≠ s → objs h !! b = None →
     Φ (Ok b)
       (Heap (<[s := VDict ∅]> (<[e := VDict ex]> (<[p := VDict ∅]> (cells h))))
             (<[b := {| _using := u; _index := i; _params := p; _extra := e;
                        _response_class := UpdateByQueryResponse; _script := s;
                        _proxied := None; _response := None |}]> (objs h)))) →
  wp (UpdateByQuery.__init__ u i ex) h Φ.
Proof.
  intros H. unfold UpdateByQuery.__init__, Request.__init__.
  apply wp_bind, wp_bind, wp_alloc. intros p Hp.
  apply wp_bind, wp_alloc. intros e He. simpl in He.
  apply lookup_insert_None in He as [He Hpe].
  apply wp_ret. simpl.
  apply wp_bind, wp_alloc. intros s Hs. simpl in Hs.
  apply lookup_insert_None in Hs as [Hs Hes].
  apply lookup_insert_None in Hs as [Hs Hps].
  apply wp_new_obj. intros b Hb. simpl in Hb.
  by apply H.
Qed.

Ltac fresh_split H := repeat (apply lookup_insert_None in H as [H ?]).

Ltac cell_lookup :=
  simpl; rewrite ?insert_insert_eq, ?lookup_insert_eq;
  rewrite ?lookup_insert_ne by congruence;
  rewrite ?lookup_insert_eq;
  first [done | eassumption | reflexivity].

Lemma wp__clone self o ms me mp h Φ :
  objs h !! self = Some o →
  cells h !! _script o = Some (VDict ms) →
  cells h !! _extra o = Some (VDict me) →
  cells h !! _params o = Some (VDict mp) →
  (∀ ubq o' h',
     ext h h' → objs h !! ubq = None → objs h' !! ubq = Some o' →
     cloned h h' o o' (_proxied o) (VDict ms) (_response_class o) →
     Φ (Ok ubq) h') →
  wp (UpdateByQuery._clone self) h Φ.
Proof.
  intros Ho Hs He Hp H. unfold UpdateByQuery._clone, Request._clone.
  apply wp_bind, wp_bind. eapply wp_get_obj; [done|]. simpl.
  apply wp_bind, wp___init__. intros p0 e0 s0 b Hp0 He0 Hs0 ? ? ? Hb. simpl.
  apply wp_bind. eapply wp_dict_copy; [cell_lookup|]. intros e1 He1. simpl in *.
  fresh_split He1.
  apply wp_bind. eapply wp_setattr; [cell_lookup|]. simpl.
  apply wp_bind. eapply wp_dict_copy; [cell_lookup|]. intros p1 Hp1. simpl in *.
  fresh_split Hp1.
  apply wp_bind. eapply wp_setattr; [cell_lookup|]. simpl.
  apply wp_ret. simpl.
  assert (self ≠ b) by congruence.
  apply wp_bind. eapply wp_get_obj; [cell_lookup|]. simpl.
  apply wp_bind. eapply wp_setattr; [cell_lookup|]. simpl.
  apply wp_bind. eapply wp_get_obj; [cell_lookup|]. simpl.
  apply wp_bind. eapply wp_dict_copy; [cell_lookup|]. intros s1 Hs1. simpl in *.
  fresh_split Hs1.
  apply wp_bind. eapply wp_setattr; [cell_lookup|]. simpl.
  apply wp_bind. eapply wp_get_obj; [cell_lookup|]. simpl.
  apply wp_bind. eapply wp_setattr; [cell_lookup|]. simpl.
  apply wp_ret. rewrite !insert_insert_eq.
  eapply H; [ | done | cell_lookup | ].
  - split; simpl.
    + repeat apply insert_subseteq_r; done.
    + by apply insert_subseteq.
  - unfold cloned; simpl. repeat split; try done; try cell_lookup.
    all: by symmetry; cell_lookup.
Qed.

(** ** Serialization *)

Lemma wp_to_dict b o s me kwargs h Φ :
  objs h !! b = Some o →
  cells h !! _script o = Some s →
  cells h !! _extra o = Some (VDict me) →
  (∀ d, cells h !! d = None →
        Φ (Ok d) (Heap (<[d := VDict (body_of (_proxied o) s me kwargs)]> (cells h))
                       (objs h))) →
  wp (UpdateByQuery.to_dict b kwargs) h Φ.
Proof.
  intros Ho Hs He H. unfold UpdateByQuery.to_dict.
  apply wp_bind, wp_alloc. intros d Hd. simpl.
  apply wp_bind. eapply wp_get_obj; [done|]. simpl.
  apply wp_bind.
  eapply (wp_mono _ _ (λ r h', r = Ok tt ∧
     h' = Heap (<[d := VDict (query_part (_proxied o) ∅)]> (cells h)) (objs h))).
  { unfold query_part. destruct (_proxied o).
    - eapply wp_dict_setitem; [cell_lookup|]. simpl. by rewrite insert_insert_eq.
    - by apply wp_ret. }
  intros ? ? [-> ->].
  apply wp_bind. eapply wp_get_obj; [done|]. simpl.
  apply wp_bind. eapply wp_load; [cell_lookup|]. simpl.
  apply wp_bind.
  eapply (wp_mono _ _ (λ r h', r = Ok tt ∧
     h' = Heap (<[d := VDict (script_part s (query_part (_proxied o) ∅))]> (cells h))
               (objs h))).
  { unfold script_part. destruct (truthy s).
    - eapply wp_dict_setitem; [cell_lookup|]. simpl. by rewrite insert_insert_eq.
    - by apply wp_ret. }
  intros ? ? [-> ->].
  apply wp_bind. eapply wp_get_obj; [done|]. simpl.
  apply wp_bind. eapply wp_load; [cell_lookup|]. simpl.
  apply wp_bind. eapply wp_dict_update; [cell_lookup|]. simpl.
  apply wp_bind. eapply wp_dict_update; [cell_lookup|]. simpl.
  apply wp_ret. rewrite !insert_insert_eq. by apply H.
Qed.

Lemma to_dict_view_eq h b o s me kwargs :
  objs h !! b = Some o →
  cells h !! _script o = Some s →
  cells h !! _extra o = Some (VDict me) →
  to_dict_view h b kwargs = Some (VDict (body_of (_proxied o) s me kwargs)).
Proof.
  intros Ho Hs He. unfold to_dict_view.
  destruct (wp_run (UpdateByQuery.to_dict b kwargs) h
    (λ r h', ∃ d, r = Ok d ∧
       cells h' !! d = Some (VDict (body_of (_proxied o) s me kwargs))))
    as (r & h' & E & d & -> & Hd).
  { eapply wp_to_dict; [done..|]. intros d Hd. exists d. split; [done|].
    simpl. apply lookup_insert_eq. }
  by rewrite E.
Qed.

(** ** The mutators *)

Lemma truthy_dict_false m : truthy (VDict m) = false → m = ∅.
Proof. simpl. intros H. apply negb_false_iff in H. by apply bool_decide_eq_true in H. Qed.

Lemma cloned_script_ne h h' o o' q s c v :
  cloned h h' o o' q s c → cells h !! _script o = Some v → _script o' ≠ _script o.
Proof. intros (?&?&?&?&?&?&?) ?. congruence. Qed.

Lemma wp_script self o ms me mp kwargs h Φ :
  objs h !! self = Some o →
  cells h !! _script o = Some (VDict ms) →
  cells h !! _extra o = Some (VDict me) →
  cells h !! _params o = Some (VDict mp) →
  (∀ ubq o' h',
     ext h h' → objs h !! ubq = None → objs h' !! ubq = Some o' →
     cloned h h' o o' (_proxied o) (VDict kwargs) (_response_class o) →
     Φ (Ok ubq) h') →
  wp (UpdateByQuery.script self kwargs) h Φ.
Proof.
  intros Ho Hs He Hp H. unfold UpdateByQuery.script.
  apply wp_bind. eapply wp__clone; [done..|].
  intros ubq o1 h1 Hext Hfresh Hubq C.
  destruct C as (Cu & Ci & Cc & Cq & Cr & Fs & Fe & Fp & Cs & Ce & Cp & N1 & N2 & N3).
  apply wp_bind. eapply wp_get_obj; [done|]. simpl.
  apply wp_bind. eapply wp_load; [done|]. simpl.
  destruct (negb (bool_decide (ms = ∅))) eqn:T.
  - apply wp_bind, wp_bind, wp_alloc. intros s' Hs'. simpl.
    eapply wp_setattr; [done|]. simpl.
    apply wp_bind. eapply wp_get_obj; [cell_lookup|]. simpl.
    apply wp_bind. eapply wp_dict_update; [cell_lookup|]. simpl.
    apply wp_ret. rewrite insert_insert_eq. rewrite (right_id_L ∅ (∪)).
    assert (cells h !! s' = None) by by eapply ext_fresh_cell.
    rewrite He in Ce. rewrite Hp in Cp.
    eapply H; [ | done | cell_lookup | ].
    + destruct Hext. split; simpl; by apply insert_subseteq_r.
    + unfold cloned; simpl. rewrite He, Hp.
      repeat split; try done; try congruence; cell_lookup.
  - apply truthy_dict_false in T as ->.
    apply wp_bind, wp_ret. simpl.
    apply wp_bind. eapply wp_get_obj; [done|]. simpl.
    apply wp_bind. eapply wp_dict_update; [done|]. simpl.
    apply wp_ret. rewrite (right_id_L ∅ (∪)).
    rewrite He in Ce. rewrite Hp in Cp.
    eapply H; [ | done | cell_lookup | ].
    + destruct Hext. split; simpl; [by apply insert_subseteq_r | done].
    + unfold cloned; simpl. rewrite He, Hp.
      repeat split; try done; try congruence; cell_lookup.
Qed.

Lemma wp_response_class self o ms me mp cls h Φ :
  objs h !! self = Some o →
  cells h !! _script o = Some (VDict ms) →
  cells h !! _extra o = Some (VDict me) →
  cells h !! _params o = Some (VDict mp) →
  (∀ ubq o' h',
     ext h h' → objs h !! ubq = None → objs h' !! ubq = Some o' →
     cloned h h' o o' (_proxied o) (VDict ms) cls →
     Φ (Ok ubq) h') →
  wp (UpdateByQuery.response_class self cls) h Φ.
Proof.
  intros Ho Hs He Hp H. unfold UpdateByQuery.response_class.
  apply wp_bind. eapply wp__clone; [done..|].
  intros ubq o1 h1 Hext Hfresh Hubq C.
  destruct C as (Cu & Ci & Cc & Cq & Cr & Fs & Fe & Fp & Cs & Ce & Cp & N1 & N2 & N3).
  apply wp_bind. eapply wp_setattr; [done|]. simpl.
  apply wp_ret.
  eapply H; [ | done | cell_lookup | ].
  - destruct Hext. split; simpl; [done | by apply insert_subseteq_r].
  - unfold cloned; simpl. repeat split; done.
Qed.

Lemma wp_query self o ms me mp a h Φ :
  objs h !! self = Some o →
  cells h !! _script o = Some (VDict ms) →
  cells h !! _extra o = Some (VDict me) →
  cells h !! _params o = Some (VDict mp) →
  (∀ q ubq o' h',
     Q a = Some q →
     ext h h' → objs h !! ubq = None → objs h' !! ubq = Some o' →
     cloned h h' o o' (combine (_proxied o) (Some q)) (VDict ms) (_response_class o) →
     Φ (Ok ubq) h') →
  (Q a = None → ∀ h', ext h h' → Φ (Raise (ConstructionError "Q")) h') →
  wp (UpdateByQuery.query self a) h Φ.
Proof.
  intros Ho Hs He Hp H HN. unfold UpdateByQuery.query.
  apply wp_bind. eapply wp__clone; [done..|].
  intros ubq o1 h1 Hext Hfresh Hubq C.
  destruct C as (Cu & Ci & Cc & Cq & Cr & Fs & Fe & Fp & Cs & Ce & Cp & N1 & N2 & N3).
  apply wp_bind. destruct (Q a) as [q|] eqn:EQ.
  - apply wp_lift_some. simpl.
    apply wp_bind. eapply wp_get_obj; [done|]. simpl.
    apply wp_bind, wp_set_obj. apply wp_ret.
    eapply H; [ done | | done | cell_lookup | ].
    + destruct Hext. split; simpl; [done | by apply insert_subseteq_r].
    + unfold cloned; simpl. rewrite Cq. repeat split; done.
  - apply wp_lift_none. by apply HN.
Qed.

Lemma wp_apply_mutator m self o ms me mp h Φ :
  objs h !! self = Some o →
  cells h !! _script o = Some (VDict ms) →
  cells h !! _extra o = Some (VDict me) →
  cells h !! _params o = Some (VDict mp) →
  (∀ q s c ubq o' h',
     mutator_effect m (_proxied o) (VDict ms) (_response_class o) = Some (q, s, c) →
     ext h h' → objs h !! ubq = None → objs h' !! ubq = Some o' →
     cloned h h' o o' q s c →
     Φ (Ok ubq) h') →
  (mutator_effect m (_proxied o) (VDict ms) (_response_class o) = None →
   Φ (Raise (ConstructionError "Q")) h) →
  wp (apply_mutator m self) h Φ.
Proof.
  intros Ho Hs He Hp H HN. destruct m as [a|a|kwargs|cls]; simpl in *.
  - unfold UpdateByQuery.filter. apply wp_bind.
    destruct (Q a) as [t|]; [|by apply wp_lift_none, HN].
    apply wp_lift_some. eapply wp_query; [done..| |done].
    intros q ubq o' h' [= <-]. by apply H.
  - unfold UpdateByQuery.exclude. apply wp_bind.
    destruct (Q a) as [t|]; [|by apply wp_lift_none, HN].
    apply wp_lift_some. eapply wp_query; [done..| |done].
    intros q ubq o' h' [= <-]. by apply H.
  - eapply wp_script; [done..|]. intros. by eapply H.
  - eapply wp_response_class; [done..|]. intros. by eapply H.
Qed.

(** ** Plain data is its own serialized form *)

Lemma vsize_elem l x : x ∈ l → vsize x < vsize (VList l).
Proof.
  simpl. induction 1; simpl; lia.
Qed.

Lemma vsize_lookup (m : gmap string value) k x :
  m !! k = Some x → vsize x < vsize (VDict m).
Proof.
  simpl. revert k x.
  apply (map_fold_weak_ind
    (λ r (m : gmap string value), ∀ k x, m !! k = Some x → vsize x < S r)).
  - intros k x. by rewrite lookup_empty.
  - intros i y m' r Hi IH k x. rewrite lookup_insert.
    case_decide; [intros [= ->]; lia|]. intros Hk%IH. lia.
Qed.

Lemma plain_dict (m : gmap string value) :
  plain (VDict m) = true ↔ ∀ k x, m !! k = Some x → plain x = true.
Proof.
  simpl.
  apply (map_fold_weak_ind
    (λ r (m : gmap string value), r = true ↔ ∀ k x, m !! k = Some x → plain x = true)).
  - split; [|done]. intros _ k x. by rewrite lookup_empty.
  - intros i y m' r Hi IH. rewrite andb_true_iff, IH. split.
    + intros [Hy Hm] k x. rewrite lookup_insert.
      case_decide; [by intros [= <-]|]. apply Hm.
    + intros H. split.
      * apply (H i). by rewrite lookup_insert_eq.
      * intros k x Hk. apply (H k). rewrite lookup_insert_ne; [done|]. congruence.
Qed.

Lemma recursive_to_dict_plain_aux n : ∀ v,
  vsize v < n → plain v = true → recursive_to_dict v = v.
Proof.
  induction n as [|n IH]; [lia|]. intros [] Hn Hp; simpl in *; try done.
  - f_equal. induction l as [|x l IHl]; [done|]. simpl in *.
    apply andb_true_iff in Hp as [Hx Hl]. f_equal.
    + apply IH; [lia|done].
    + apply IHl; [lia|done].
  - f_equal. apply map_eq. intros k. rewrite lookup_fmap.
    destruct (m !! k) as [x|] eqn:E; [|done]. simpl. f_equal.
    apply IH.
    + apply vsize_lookup in E. simpl in E. lia.
    + by eapply (proj1 (plain_dict m)).
Qed.

Lemma recursive_to_dict_plain v : plain v = true → recursive_to_dict v = v.
Proof. apply (recursive_to_dict_plain_aux (S (vsize v))). lia. Qed.

Lemma recursive_to_dict_plain_map (m : gmap string value) :
  plain (VDict m) = true → recursive_to_dict <$> m = m.
Proof. intros H%recursive_to_dict_plain. simpl in H. by injection H. Qed.

(** ** Rebuilding from a wire mapping *)

Lemma rest_union_id (md : gmap string value) :
  delete "script" (delete "query" md) ∪ md = md.
Proof.
  apply map_subseteq_union. etrans; apply delete_subseteq.
Qed.

Lemma set_proxied_script s q o :
  _extra (set_script s (set_proxied q o)) = _extra o.
Proof. done. Qed.

Lemma wp_update_from_dict (h : heap) (self d : loc) (o : UpdateByQuery)
    (md me : gmap string value) :
  objs h !! self = Some o →
  cells h !! d = Some (VDict md) →
  cells h !! _extra o = Some (VDict me) →
  wp (UpdateByQuery.update_from_dict self d) h (λ r h',
    cells h' !! d = Some (VDict md) ∧
    match md !! "query", md !! "query" ≫= Q_dict with
    | Some _, None =>
        r = Raise (ConstructionError "Q") ∧ objs h' = objs h ∧ ext h h'
    | _, parsed =>
        ∃ o', r = Ok self ∧ objs h' !! self = Some o' ∧
          _proxied o' = (if md !! "query" is Some _ then parsed else _proxied o) ∧
          match md !! "script" with
          | Some v => cells h !! _script o' = None ∧ cells h' !! _script o' = Some v
          | None => _script o' = _script o
          end ∧
          _extra o' = _extra o ∧
          cells h' !! _extra o' =
            Some (VDict (delete "script" (delete "query" md) ∪ me)) ∧
          (∀ l x, l ≠ _extra o → cells h !! l = Some x → cells h' !! l = Some x) ∧
          objs h' = <[self := o']> (objs h)
    end).
Proof.
  intros Ho Hd He. unfold UpdateByQuery.update_from_dict.
  apply wp_bind. eapply wp_dict_copy; [done|]. intros d' Hd'. simpl.
  assert (d' ≠ d) by congruence. assert (d' ≠ _extra o) by congruence.
  apply wp_bind. eapply wp_dict_contains; [cell_lookup|]. simpl.
  apply wp_bind.
  destruct (md !! "query") as [v|] eqn:Eq; simpl.
  - (* the mapping has a query *)
    apply wp_bind. eapply wp_dict_pop; [cell_lookup|done|]. simpl.
    apply wp_bind. destruct (Q_dict v) as [q|] eqn:EQ.
    2:{ apply wp_lift_none. rewrite insert_insert_eq. split; [cell_lookup|].
        split; [done|]. split; [done|]. by apply ext_alloc. }
    apply wp_lift_some. simpl. rewrite insert_insert_eq.
    eapply wp_setattr; [done|]. simpl.
    apply wp_bind. eapply wp_dict_contains; [cell_lookup|]. simpl.
    rewrite lookup_delete_ne by done.
    apply wp_bind.
    destruct (md !! "script") as [w|] eqn:Es; simpl.
    + apply wp_bind. eapply wp_dict_pop; [cell_lookup| |].
      { by rewrite lookup_delete_ne. }
      simpl. rewrite insert_insert_eq.
      apply wp_bind, wp_alloc. intros s Hs. simpl in *. fresh_split Hs.
      eapply wp_setattr; [cell_lookup|]. simpl. rewrite insert_insert_eq.
      apply wp_bind. eapply wp_get_obj; [cell_lookup|]. simpl.
      apply wp_bind. eapply wp_load; [cell_lookup|]. simpl.
      apply wp_bind. eapply wp_dict_update; [cell_lookup|]. simpl.
      apply wp_ret.
      split.
      * destruct (decide (d = _extra o)) as [->|].
        -- simpl. rewrite lookup_insert_eq. rewrite Hd in He. injection He as <-.
           by rewrite rest_union_id.
        -- cell_lookup.
      * eexists. split; [done|]. split; [cell_lookup|]. simpl.
        repeat split; try done; try cell_lookup.
        all: try (intros l x ? ?; cell_lookup).
        all: try by rewrite insert_insert_eq.
        all: try by rewrite insert_id.
    + apply wp_ret. simpl.
      apply wp_bind. eapply wp_get_obj; [cell_lookup|]. simpl.
      apply wp_bind. eapply wp_load; [cell_lookup|]. simpl.
      apply wp_bind. eapply wp_dict_update; [cell_lookup|]. simpl.
      apply wp_ret.
      rewrite (delete_id (delete "query" md) "script") by by rewrite lookup_delete_ne.
      split.
      * destruct (decide (d = _extra o)) as [->|].
        -- simpl. rewrite lookup_insert_eq. rewrite Hd in He. injection He as <-.
           rewrite map_subseteq_union; [done | apply delete_subseteq].
        -- cell_lookup.
      * eexists. split; [done|]. split; [cell_lookup|]. simpl.
        repeat split; try done; try cell_lookup.
        all: try (intros l x ? ?; cell_lookup).
        all: try by rewrite insert_insert_eq.
        all: try by rewrite insert_id.
  - (* no query *)
    apply wp_ret. simpl.
    apply wp_bind. eapply wp_dict_contains; [cell_lookup|]. simpl.
    apply wp_bind.
    rewrite (delete_id md "query") by done.
    destruct (md !! "script") as [w|] eqn:Es; simpl.
    + apply wp_bind. eapply wp_dict_pop; [cell_lookup|done|].
      simpl. rewrite insert_insert_eq.
      apply wp_bind, wp_alloc. intros s Hs. simpl in *. fresh_split Hs.
      eapply wp_setattr; [cell_lookup|]. simpl.
      apply wp_bind. eapply wp_get_obj; [cell_lookup|]. simpl.
      apply wp_bind. eapply wp_load; [cell_lookup|]. simpl.
      apply wp_bind. eapply wp_dict_update; [cell_lookup|]. simpl.
      apply wp_ret.
      split.
      * destruct (decide (d = _extra o)) as [->|].
        -- simpl. rewrite lookup_insert_eq. rewrite Hd in He. injection He as <-.
           rewrite map_subseteq_union; [done | apply delete_subseteq].
        -- cell_lookup.
      * eexists. split; [done|]. split; [cell_lookup|]. simpl.
        repeat split; try done; try cell_lookup.
        all: try (intros l x ? ?; cell_lookup).
        all: try by rewrite insert_insert_eq.
        all: try by rewrite insert_id.
    + apply wp_ret. simpl.
      apply wp_bind. eapply wp_get_obj; [cell_lookup|]. simpl.
      apply wp_bind. eapply wp_load; [cell_lookup|]. simpl.
      apply wp_bind. eapply wp_dict_update; [cell_lookup|]. simpl.
      apply wp_ret.
      rewrite (delete_id md "script") by done.
      split.
      * destruct (decide (d = _extra o)) as [->|].
        -- simpl. rewrite lookup_insert_eq. rewrite Hd in He. injection He as <-.
           by rewrite (idemp_L (∪)).
        -- cell_lookup.
      * eexists. split; [done|]. split; [done|]. simpl.
        repeat split; try done; try cell_lookup.
        all: try (intros l x ? ?; cell_lookup).
        all: try by rewrite insert_insert_eq.
        all: try by rewrite insert_id.
Qed.

Lemma base_lookup_query q s :
  script_part s (query_part q ∅) !! "query" = Query.to_dict <$> q.
Proof.
  unfold script_part, query_part.
  destruct (truthy s), q; simpl; by simplify_map_eq.
Qed.

Lemma base_lookup_script q s :
  script_part s (query_part q ∅) !! "script" = if truthy s then Some s else None.
Proof.
  unfold script_part, query_part.
  destruct (truthy s), q; simpl; by simplify_map_eq.
Qed.

Lemma base_lookup_other q s k :
  k ≠ "query" → k ≠ "script" → script_part s (query_part q ∅) !! k = None.
Proof.
  intros. unfold script_part, query_part.
  destruct (truthy s), q; simpl; by simplify_map_eq.
Qed.

Lemma body_of_no_kwargs q s me :
  body_of q s me ∅ = (recursive_to_dict <$> me) ∪ script_part s (query_part q ∅).
Proof. unfold body_of. by rewrite fmap_empty, (left_id_L ∅ (∪)). Qed.

Lemma body_rest q s (me : gmap string value) :
  me !! "query" = None → me !! "script" = None →
  delete "script" (delete "query" (me ∪ script_part s (query_part q ∅))) = me.
Proof.
  intros Hq Hs. apply map_eq. intros k.
  destruct (decide (k = "script")) as [->|].
  { by rewrite lookup_delete_eq. }
  rewrite lookup_delete_ne by done.
  destruct (decide (k = "query")) as [->|].
  { by rewrite lookup_delete_eq. }
  rewrite lookup_delete_ne by done.
  rewrite lookup_union, base_lookup_other by done.
  by destruct (me !! k).
Qed.

Lemma wp_from_dict (h : heap) (d : loc) (md : gmap string value) :
  cells h !! d = Some (VDict md) →
  wp (UpdateByQuery.from_dict d) h (λ r h',
    ext h h' ∧
    match md !! "query", md !! "query" ≫= Q_dict with
    | Some _, None => r = Raise (ConstructionError "Q")
    | _, parsed =>
        ∃ u o', r = Ok u ∧ objs h !! u = None ∧ objs h' !! u = Some o' ∧
          _proxied o' = parsed ∧
          cells h' !! _script o' = Some (default (VDict ∅) (md !! "script")) ∧
          cells h' !! _extra o' = Some (VDict (delete "script" (delete "query" md))) ∧
          cells h !! _script o' = None ∧ cells h !! _extra o' = None
    end).
Proof.
  intros Hd. unfold UpdateByQuery.from_dict.
  apply wp_bind, wp___init__. intros p e s u Hp He Hs Hpe Hps Hes Hu. simpl.
  apply wp_bind.
  eapply wp_mono.
  { eapply (wp_update_from_dict _ u d _ md ∅).
    - cell_lookup.
    - cell_lookup.
    - cell_lookup. }
  simpl. intros r h' [Hd' H].
  assert (∀ o', (∀ l x, l ≠ e →
              <[s:=VDict ∅]> (<[e:=VDict ∅]> (<[p:=VDict ∅]> (cells h))) !! l = Some x →
              cells h' !! l = Some x) →
           objs h' = <[u := o']> (<[u:={| _using := "default"; _index := None;
                     _params := p; _extra := e;
                     _response_class := UpdateByQueryResponse;
                     _script := s; _proxied := None; _response := None |}]> (objs h)) →
           ext h h') as Hext.
  { intros o' F Ho'. split.
    - apply map_subseteq_spec. intros l x Hl. apply F; [congruence|cell_lookup].
    - rewrite Ho', insert_insert_eq. by apply insert_subseteq. }
  destruct (md !! "query") as [v|] eqn:Eq; simpl in *.
  - destruct (Q_dict v) as [q|] eqn:EQ.
    + destruct H as (o' & -> & Ho' & Hq & Hsc & Hex & Hec & F & Hobjs).
      apply wp_ret. split; [by eapply Hext|].
      exists u, o'. rewrite Hex in *. rewrite (right_id_L ∅ (∪)) in Hec.
      repeat split; try done.
      destruct (md !! "script"); simpl.
      * by destruct Hsc.
      * rewrite Hsc. apply F; [congruence | cell_lookup].
      * destruct (md !! "script"); [|by rewrite Hsc].
        destruct Hsc as [Hn _]. by fresh_split Hn.
    + destruct H as (-> & Hobjs & [Hc Ho]). split; [|done].
      split; simpl in *.
      * etrans; [|exact Hc]. repeat apply insert_subseteq_r; done.
      * rewrite Hobjs. by apply insert_subseteq.
  - destruct H as (o' & -> & Ho' & Hq & Hsc & Hex & Hec & F & Hobjs).
    apply wp_ret. split; [by eapply Hext|].
    exists u, o'. rewrite Hex in *. rewrite (right_id_L ∅ (∪)) in Hec.
    repeat split; try done.
    destruct (md !! "script"); simpl.
    * by destruct Hsc.
    * rewrite Hsc. apply F; [congruence | cell_lookup].
    * destruct (md !! "script"); [|by rewrite Hsc].
        destruct Hsc as [Hn _]. by fresh_split Hn.
Qed.

(** ** The round trip *)

Lemma state_of_inv h b q s e :
  state_of h b = Some (q, s, e) →
  ∃ o, objs h !! b = Some o ∧ _proxied o = q ∧
       cells h !! _script o = Some s ∧ cells h !! _extra o = Some e.
Proof.
  unfold state_of. intros H.
  destruct (objs h !! b) as [o|] eqn:Eo; simpl in H; [|done].
  destruct (cells h !! _script o) as [s'|] eqn:Es; simpl in H; [|done].
  destruct (cells h !! _extra o) as [e'|] eqn:Ee; simpl in H; [|done].
  injection H as <- <- <-. by exists o.
Qed.

Lemma state_of_intro h b o s e :
  objs h !! b = Some o → cells h !! _script o = Some s → cells h !! _extra o = Some e →
  state_of h b = Some (_proxied o, s, e).
Proof.
  unfold state_of. intros Ho Hs He.
  rewrite Ho. simpl. rewrite Hs. simpl. by rewrite He.
Qed.

Lemma wp_roundtrip (h : heap) (b : loc) (q : option QueryNode)
    (ms me : gmap string value) :
  state_of h b = Some (q, VDict ms, VDict me) →
  me !! "query" = None → me !! "script" = None →
  plain (VDict me) = true →
  (∀ t, q = Some t → Q_dict (Query.to_dict t) = Some t) →
  wp (roundtrip b) h (λ r h',
    ∃ u, r = Ok u ∧ objs h !! u = None ∧ ext h h' ∧
         state_of h' u = Some (q, VDict ms, VDict me)).
Proof.
  intros (o & Ho & <- & Hs & He)%state_of_inv Hq Hsc Hpl HQ.
  unfold roundtrip. apply wp_bind. eapply wp_to_dict; [done..|].
  intros d Hd. simpl. eapply wp_mono; [by eapply wp_from_dict; cell_lookup|].
  simpl. intros r h'. rewrite body_of_no_kwargs, recursive_to_dict_plain_map by done.
  rewrite !lookup_union, Hq, Hsc, !(left_id_L None union).
  rewrite base_lookup_query, base_lookup_script, body_rest by done.
  intros [Hext H].
  assert (ext h h') as Hext'.
  { eapply ext_trans; [|done]. by apply ext_alloc. }
  assert (cells h !! d = None → ∀ u o', objs h' !! u = Some o' →
          objs {| cells := <[d:=VDict (me ∪ script_part (VDict ms) (query_part (_proxied o) ∅))]> (cells h);
                  objs := objs h |} !! u = None →
          _proxied o' = _proxied o →
          cells h' !! _script o' = Some (default (VDict ∅) (if truthy (VDict ms) then Some (VDict ms) else None)) →
          cells h' !! _extra o' = Some (VDict me) →
          ∃ u0, Ok u = Ok u0 ∧ objs h !! u0 = None ∧ ext h h' ∧
                state_of h' u0 = Some (_proxied o, VDict ms, VDict me)) as Fin.
  { intros _ u o' Ho' Hu Hpq Hsc' Hex'. exists u.
    split; [done|]. split; [done|]. split; [done|].
    rewrite <-Hpq. eapply state_of_intro; [done| |done].
    rewrite Hsc'. destruct (truthy (VDict ms)) eqn:T; simpl; [done|].
    by apply truthy_dict_false in T as ->. }
  destruct (_proxied o) as [t|] eqn:Et; simpl in *.
  - rewrite (HQ t eq_refl) in H.
    destruct H as (u & o' & -> & Hu & Ho' & Hpq & Hsc' & Hex' & _). by eapply Fin.
  - destruct H as (u & o' & -> & Hu & Ho' & Hpq & Hsc' & Hex' & _). by eapply Fin.
Qed.

(** ** Execution *)

Lemma wf_inv h b :
  wf h b = true →
  ∃ o ms me mp, objs h !! b = Some o ∧
    cells h !! _script o = Some (VDict ms) ∧
    cells h !! _extra o = Some (VDict me) ∧
    cells h !! _params o = Some (VDict mp).
Proof.
  unfold wf, dict_at. intros H.
  destruct (objs h !! b) as [o|] eqn:Eo; [|done].
  destruct (cells h !! _script o) as [[]|] eqn:Es; try done.
  destruct (cells h !! _extra o) as [[]|] eqn:Ee; try done.
  destruct (cells h !! _params o) as [[]|] eqn:Ep; try done.
  eauto 10.
Qed.

Lemma wf_intro h b o ms me mp :
  objs h !! b = Some o →
  cells h !! _script o = Some (VDict ms) →
  cells h !! _extra o = Some (VDict me) →
  cells h !! _params o = Some (VDict mp) →
  wf h b = true.
Proof. unfold wf, dict_at. by intros -> -> -> ->. Qed.

Lemma wpw_bind {A B} (m : W A) (k : A → W B) w Φ :
  wpw m w (λ r w', match r with
                   | Ok a => wpw (k a) w' Φ
                   | Raise e => Φ (Raise e) w'
                   end) →
  wpw (m ≫= k) w Φ.
Proof.
  unfold wpw, mbind, W_bind. destruct (m w) as [[a|e] w']; simpl; auto.
Qed.

Lemma wpw_mono {A} (m : W A) w (Φ Ψ : res A → world → Prop) :
  wpw m w Φ → (∀ r w', Φ r w' → Ψ r w') → wpw m w Ψ.
Proof. unfold wpw. auto. Qed.

Lemma wpw_in_store {A} (m : M A) w (Φ : res A → world → Prop) :
  wp m (mem w) (λ r h', Φ r (World h' (calls w))) → wpw (in_store m) w Φ.
Proof. done. Qed.

Lemma wpw_update_by_query (c : client) (k : call) w (Φ : res value → world → Prop) :
  Φ (c (calls w) k) (World (mem w) (calls w ++ [k])%list) → wpw (update_by_query c k) w Φ.
Proof. done. Qed.

Lemma wpw_execute (registry : gmap string client) self o s me mp (c : client) w :
  objs (mem w) !! self = Some o →
  cells (mem w) !! _script o = Some s →
  cells (mem w) !! _extra o = Some (VDict me) →
  cells (mem w) !! _params o = Some (VDict mp) →
  registry !! _using o = Some c →
  wpw (UpdateByQuery.execute registry self) w (λ r w',
    calls w' = (calls w ++ [call_of o s me mp])%list ∧
    cells (mem w) ⊆ cells (mem w') ∧
    match c (calls w) (call_of o s me mp) with
    | Raise e => r = Raise e ∧ objs (mem w') = objs (mem w)
    | Ok raw =>
        let resp := {| r_class := _response_class o; r_search := self;
                       r_raw := raw |} in
        r = Ok resp ∧
        objs (mem w') = <[self := set_response (Some resp) o]> (objs (mem w))
    end).
Proof.
  intros Ho Hs He Hp Hc. unfold UpdateByQuery.execute.
  apply wpw_bind, wpw_in_store. eapply wp_get_obj; [done|]. simpl.
  apply wpw_bind, wpw_in_store. unfold get_connection. rewrite Hc.
  apply wp_lift_some. simpl.
  apply wpw_bind, wpw_in_store. eapply wp_get_obj; [done|]. simpl.
  apply wpw_bind, wpw_in_store. eapply wp_to_dict; [done..|]. intros d Hd.
  simpl in Hd. simpl.
  apply wpw_bind, wpw_in_store. eapply wp_load; [cell_lookup|]. simpl.
  apply wpw_bind, wpw_in_store. eapply wp_get_obj; [done|]. simpl.
  apply wpw_bind, wpw_in_store. eapply wp_load; [cell_lookup|]. simpl.
  apply wpw_bind, wpw_update_by_query. simpl.
  change {| call_using := _using o; call_index := _index o;
            call_body := VDict (body_of (_proxied o) s me ∅);
            call_params := mp |} with (call_of o s me mp).
  destruct (c (calls w) (call_of o s me mp)) as [raw|e].
  - apply wpw_bind, wpw_in_store. eapply wp_setattr; [done|]. simpl.
    apply wpw_bind, wpw_in_store. eapply wp_get_obj; [cell_lookup|]. simpl.
    apply wpw_in_store. unfold wp. simpl.
    split; [done|]. split; [by apply insert_subseteq|done].
  - simpl. split; [done|]. split; [by apply insert_subseteq|done].
Qed.

(** ** What an unchanged store preserves *)

Lemma ext_state_of h h' b : ext h h' → is_Some (state_of h b) → state_of h' b = state_of h b.
Proof.
  intros Hext [[[q s] e] H]. rewrite H.
  apply state_of_inv in H as (o & Ho & <- & Hs & He).
  eapply state_of_intro; by eapply ext_cell || eapply ext_obj.
Qed.

Lemma ext_to_dict_view h h' b o s me kwargs :
  ext h h' →
  objs h !! b = Some o → cells h !! _script o = Some s →
  cells h !! _extra o = Some (VDict me) →
  to_dict_view h' b kwargs = to_dict_view h b kwargs.
Proof.
  intros Hext Ho Hs He.
  rewrite (to_dict_view_eq h b o s me) by done.
  eapply to_dict_view_eq; by eapply ext_cell || eapply ext_obj.
Qed.

Lemma accepted_effect m q s c :
  accepted m = true → is_Some (mutator_effect m q s c).
Proof.
  destruct m; simpl; try done.
  all: intros [t ->]%bool_decide_eq_true; done.
Qed.

Lemma not_accepted_effect m q s c :
  accepted m = false → mutator_effect m q s c = None.
Proof.
  destruct m; simpl; try done.
  all: intros H%bool_decide_eq_false; destruct (Q a); [|done].
  all: by destruct H.
Qed.

(** ** The body [to_dict] builds *)

Lemma base_lookup_eq q s key :
  script_part s (query_part q ∅) !! key = base_lookup q s key.
Proof.
  unfold base_lookup. repeat case_decide; subst.
  - apply base_lookup_query.
  - apply base_lookup_script.
  - by apply base_lookup_other.
Qed.

Lemma body_of_lookup q s me kwargs key :
  body_of q s me kwargs !! key =
    match kwargs !! key with
    | Some v => Some (recursive_to_dict v)
    | None =>
        match me !! key with
        | Some v => Some (recursive_to_dict v)
        | None => base_lookup q s key
        end
    end.
Proof.
  unfold body_of. rewrite !lookup_union, !lookup_fmap, base_lookup_eq.
  destruct (kwargs !! key), (me !! key), (base_lookup q s key); done.
Qed.

(** ** The parser inverts the serializer *)

Lemma QueryNode_ind' (P : QueryNode → Prop) :
  (∀ kind params, P (Leaf kind params)) →
  (∀ must filter must_not,
     Forall P must → Forall P filter → Forall P must_not →
     P (Bool must filter must_not)) →
  ∀ q, P q.
Proof.
  intros HL HB. fix IH 1. intros [kind params|must filter must_not]; [apply HL|].
  apply HB.
  - induction must as [|x l IHl]; constructor; [apply IH|apply IHl].
  - induction filter as [|x l IHl]; constructor; [apply IH|apply IHl].
  - induction must_not as [|x l IHl]; constructor; [apply IH|apply IHl].
Qed.

Lemma Q_dict_unfold d :
  Q_dict (VDict d) =
    match map_to_list (parse_body <$> d) with
    | [(kind, (VDict params, Some p))] =>
        if decide (kind = "bool") then
          if decide (dom p ⊆ bool_clauses) then
            must ← clause_of p "must";
            filter ← clause_of p "filter";
            must_not ← clause_of p "must_not";
            Some (Bool must filter must_not)
          else None
        else Some (Leaf kind params)
    | _ => None
    end.
Proof. reflexivity. Qed.

Lemma Q_dict_singleton kind (params : gmap string value) :
  Q_dict (VDict {[ kind := VDict params ]}) =
    if decide (kind = "bool") then
      if decide (dom (parse_clause <$> params) ⊆ bool_clauses) then
        must ← clause_of (parse_clause <$> params) "must";
        filter ← clause_of (parse_clause <$> params) "filter";
        must_not ← clause_of (parse_clause <$> params) "must_not";
        Some (Bool must filter must_not)
      else None
    else Some (Leaf kind params).
Proof.
  rewrite Q_dict_unfold, map_fmap_singleton, map_to_list_singleton. reflexivity.
Qed.

Lemma mapM_Q_dict_to_dict (l : list QueryNode) :
  Forall (λ q, well_formed q = true → Q_dict (Query.to_dict q) = Some q) l →
  forallb well_formed l = true →
  mapM Q_dict (map Query.to_dict l) = Some l.
Proof.
  induction 1 as [|x l Hx _ IH]; [done|]. simpl.
  intros [Hwx Hwl]%andb_true_iff.
  rewrite (Hx Hwx). simpl. rewrite (IH Hwl). done.
Qed.

Lemma clause_lookup name (children : list value) key :
  clause name children !! key =
    match children with
    | [] => None
    | _ => if decide (name = key) then Some (VList children) else None
    end.
Proof.
  unfold clause. destruct children; [apply lookup_empty|].
  rewrite lookup_singleton. by case_decide.
Qed.

Lemma clauses_lookup must filter must_not key :
  clauses must filter must_not !! key =
    if decide (key = "must") then
      match must with [] => None | _ => Some (VList must) end
    else if decide (key = "filter") then
      match filter with [] => None | _ => Some (VList filter) end
    else if decide (key = "must_not") then
      match must_not with [] => None | _ => Some (VList must_not) end
    else None.
Proof.
  unfold clauses. rewrite !lookup_union, !clause_lookup.
  destruct must, filter, must_not; repeat case_decide; simplify_eq; done.
Qed.

Lemma clauses_dom must filter must_not :
  dom (parse_clause <$> clauses must filter must_not) ⊆ bool_clauses.
Proof.
  rewrite dom_fmap_L. intros key [x Hx]%elem_of_dom.
  rewrite clauses_lookup in Hx. unfold bool_clauses.
  repeat case_decide; subst; set_solver.
Qed.

Lemma clause_of_clauses must filter must_not key (l : list QueryNode)
    (children : list value) :
  clauses must filter must_not !! key
  = match children with [] => None | _ => Some (VList children) end →
  children = map Query.to_dict l →
  mapM Q_dict children = Some l →
  clause_of (parse_clause <$> clauses must filter must_not) key = Some l.
Proof.
  intros Hk -> Hl. unfold clause_of. rewrite lookup_fmap, Hk.
  destruct l; simpl in *; [done|]. exact Hl.
Qed.

Lemma Q_dict_to_dict (q : QueryNode) :
  well_formed q = true → Q_dict (Query.to_dict q) = Some q.
Proof.
  induction q as [kind params|must filter must_not IHm IHf IHn] using QueryNode_ind';
    intros Hwf.
  - cbn [well_formed] in Hwf. apply bool_decide_eq_true in Hwf.
    change (Query.to_dict (Leaf kind params)) with (VDict {[ kind := VDict params ]}).
    rewrite Q_dict_singleton. by rewrite decide_False.
  - cbn [well_formed] in Hwf.
    apply andb_true_iff in Hwf as [[Hm Hf]%andb_true_iff Hn].
    change (Query.to_dict (Bool must filter must_not))
      with (VDict {[ "bool" := VDict (clauses (map Query.to_dict must)
                                              (map Query.to_dict filter)
                                              (map Query.to_dict must_not)) ]}).
    rewrite Q_dict_singleton.
    rewrite decide_True by done.
    rewrite decide_True by apply clauses_dom.
    erewrite (clause_of_clauses _ _ _ "must" must);
      [|by rewrite clauses_lookup|done|by apply mapM_Q_dict_to_dict].
    erewrite (clause_of_clauses _ _ _ "filter" filter);
      [|by rewrite clauses_lookup|done|by apply mapM_Q_dict_to_dict].
    erewrite (clause_of_clauses _ _ _ "must_not" must_not);
      [|by rewrite clauses_lookup|done|by apply mapM_Q_dict_to_dict].
    done.
Qed.

Lemma wp_roundtrip_well_formed (h : heap) (b : loc) (q : option QueryNode)
    (ms me : gmap string value) :
  state_of h b = Some (q, VDict ms, VDict me) →
  me !! "query" = None → me !! "script" = None →
  plain (VDict me) = true →
  (∀ t, q = Some t → well_formed t = true) →
  wp (roundtrip b) h (λ r h',
    ∃ u, r = Ok u ∧ objs h !! u = None ∧ ext h h' ∧
         state_of h' u = Some (q, VDict ms, VDict me)).
Proof.
  intros Hst Hq Hs Hp Hwf. apply wp_roundtrip; [done..|].
  intros t Ht. apply Q_dict_to_dict. by apply Hwf.
Qed.

(** * The claims *)

(** C1 (as amended).  Round trip: for a builder whose script is a mapping,
    whose extras hold neither a ["query"] nor a ["script"] key and only plain
    data, and whose query the query layer parses back from its own serialized
    form, [from_dict(b.to_dict())] returns a new builder whose query, script
    and extras equal those of [b]; [b] and the rest of the store are
    unchanged. *)
Theorem round_trip (h : heap) (b : loc) (q : option QueryNode)
    (ms me : gmap string value) :
  state_of h b = Some (q, VDict ms, VDict me) →
  me !! "query" = None → me !! "script" = None →
  plain (VDict me) = true →
  (∀ t, q = Some t → Q_dict (Query.to_dict t) = Some t) →
  wp (roundtrip b) h (λ r h',
    ∃ u, r = Ok u ∧ objs h !! u = None ∧ ext h h' ∧
         state_of h' u = Some (q, VDict ms, VDict me)).
Proof. apply wp_roundtrip. Qed.

Lemma round_trip_witness :
  state_of example_store example_builder
  = Some (Some (Bool [] [Leaf "term" {[ "published" := VBool true ]}] []),
          VDict {[ "source" := VStr "ctx._source.likes++" ]},
          VDict {[ "size" := VInt 5 ]}) ∧
  wp (roundtrip example_builder) example_store (λ r h',
    ∃ u, r = Ok u ∧ objs example_store !! u = None ∧ ext example_store h' ∧
         state_of h' u
         = Some (Some (Bool [] [Leaf "term" {[ "published" := VBool true ]}] []),
                 VDict {[ "source" := VStr "ctx._source.likes++" ]},
                 VDict {[ "size" := VInt 5 ]})).
Proof.
  split; [vm_compute; reflexivity|].
  apply round_trip.
  - vm_compute; reflexivity.
  - vm_compute; reflexivity.
  - vm_compute; reflexivity.
  - vm_compute; reflexivity.
  - intros t [= <-]. vm_compute; reflexivity.
Defined.

(** C1 as stated fails: extras that carry a ["script"] key win over the
    script in [to_dict], and [from_dict] reads them back as the script. *)
Lemma round_trip_counterexample :
  wf shadowed_store shadowed_builder = true ∧
  state_of shadowed_store shadowed_builder
  = Some (None, VDict {[ "source" := VStr "a" ]},
          VDict {[ "script" := VDict {[ "source" := VStr "b" ]} ]}) ∧
  wp (roundtrip shadowed_builder) shadowed_store (λ r h',
    ∃ u, r = Ok u ∧
         state_of h' u = Some (None, VDict {[ "source" := VStr "b" ]}, VDict ∅) ∧
         state_of h' u ≠ state_of shadowed_store shadowed_builder).
Proof.
  split; [vm_compute; reflexivity|]. split; [vm_compute; reflexivity|].
  unfold wp. eexists. split; [vm_compute; reflexivity|].
  split; [vm_compute; reflexivity|]. vm_compute. discriminate.
Qed.

(** Extras that hold an object with [to_dict] come back as that object's
    serialized form: the reason for the plain-data condition of C1. *)
Example round_trip_unwraps_objects :
  wp (roundtrip nested_builder) nested_store (λ r h',
    ∃ u, r = Ok u ∧
      state_of nested_store nested_builder
      = Some (None, VDict ∅,
              VDict {[ "extra_q" :=
                VObj (VDict {[ "term" := VDict {[ "category" := VStr "conference" ]} ]}) ]}) ∧
      state_of h' u
      = Some (None, VDict ∅,
              VDict {[ "extra_q" :=
                VDict {[ "term" := VDict {[ "category" := VStr "conference" ]} ]} ]})).
Proof.
  unfold wp. eexists. split; [vm_compute; reflexivity|].
  split; vm_compute; reflexivity.
Qed.

(** C2.  Clone on write: each of [filter], [exclude], [script] and
    [response_class], called on a builder [b], leaves every container and
    every instance of the store as it was, so that [b] holds the same state
    and [b.to_dict()] evaluates to the same mapping before and after.  When
    the query layer accepts the term, the call returns a new instance, a clone
    of [b] but for the field the mutator sets, whose script, extras and call
    parameters are containers of its own; the script container in particular
    is not the one of [b].  When it rejects the term, the call raises and the
    store is unchanged. *)
Theorem mutators_clone_on_write (h : heap) (b : loc) (m : mutator) :
  wf h b = true →
  wp (apply_mutator m b) h (λ r h',
    ext h h' ∧
    state_of h' b = state_of h b ∧
    to_dict_view h' b ∅ = to_dict_view h b ∅ ∧
    is_Some (to_dict_view h b ∅) ∧
    if accepted m then
      ∃ b' o o' ms q s c,
        r = Ok b' ∧ objs h !! b' = None ∧
        objs h !! b = Some o ∧ objs h' !! b' = Some o' ∧
        cells h !! _script o = Some (VDict ms) ∧
        mutator_effect m (_proxied o) (VDict ms) (_response_class o) = Some (q, s, c) ∧
        cloned h h' o o' q s c ∧ _script o' ≠ _script o
    else r = Raise (ConstructionError "Q") ∧ h' = h).
Proof.
  intros (o & ms & me & mp & Ho & Hs & He & Hp)%wf_inv.
  assert (is_Some (state_of h b)) as Hst.
  { eexists. by eapply state_of_intro. }
  assert (is_Some (to_dict_view h b ∅)) as Hv.
  { eexists. by eapply to_dict_view_eq. }
  eapply wp_apply_mutator; [done..| |].
  - intros q s c ubq o' h' Heff Hext Hfresh Ho' Hcl.
    split; [done|]. split; [by apply ext_state_of|].
    split; [by eapply ext_to_dict_view|]. split; [done|].
    destruct (accepted m) eqn:Ha.
    + exists ubq, o, o', ms, q, s, c. do 7 (split; [done|]).
      by eapply cloned_script_ne.
    + apply (not_accepted_effect _ (_proxied o) (VDict ms) (_response_class o)) in Ha.
      congruence.
  - intros Heff. split; [apply ext_refl|]. split; [done|]. split; [done|].
    split; [done|].
    destruct (accepted m) eqn:Ha; [|done].
    apply (accepted_effect _ (_proxied o) (VDict ms) (_response_class o)) in Ha.
    rewrite Heff in Ha. by destruct Ha.
Qed.


Lemma mutators_clone_on_write_witness :
  wf example_store example_builder = true ∧
  to_dict_view
    (apply_mutator (MExclude (QName "term" {[ "archived" := VBool true ]}))
       example_builder example_store).2 example_builder ∅
  = to_dict_view example_store example_builder ∅.
Proof.
  split; [vm_compute; reflexivity|].
  pose proof (mutators_clone_on_write example_store example_builder
    (MExclude (QName "term" {[ "archived" := VBool true ]}))) as H.
  unfold wp in H.
  destruct H as (_ & _ & H & _); [vm_compute; reflexivity|].
  exact H.
Defined.

(** C3.  Script replacement: whatever script a builder holds and whatever
    [kw1] is, [b.script(kw1).script(kw2)] returns a builder whose script
    mapping is exactly [kw2]. *)
Theorem script_replaces (h : heap) (b : loc) (kw1 kw2 : gmap string value) :
  wf h b = true →
  wp (b1 ← UpdateByQuery.script b kw1; UpdateByQuery.script b1 kw2) h (λ r h',
    ∃ b2 o2, r = Ok b2 ∧ objs h' !! b2 = Some o2 ∧
             cells h' !! _script o2 = Some (VDict kw2)).
Proof.
  intros (o & ms & me & mp & Ho & Hs & He & Hp)%wf_inv.
  apply wp_bind. eapply wp_script; [done..|].
  intros b1 o1 h1 _ _ Ho1 C.
  destruct C as (_ & _ & _ & _ & _ & _ & _ & _ & Cs & Ce & Cp & _).
  rewrite He in Ce. rewrite Hp in Cp.
  eapply wp_script; [done..|].
  intros b2 o2 h2 _ _ Ho2 C.
  destruct C as (_ & _ & _ & _ & _ & _ & _ & _ & Cs2 & _).
  by exists b2, o2.
Qed.

Lemma script_replaces_witness :
  wf example_store example_builder = true ∧
  wp (b1 ← UpdateByQuery.script example_builder {[ "a" := VInt 1 ]};
      UpdateByQuery.script b1 {[ "b" := VInt 2 ]}) example_store (λ r h',
    ∃ b2 o2, r = Ok b2 ∧ objs h' !! b2 = Some o2 ∧
             cells h' !! _script o2 = Some (VDict {[ "b" := VInt 2 ]})).
Proof.
  split; [vm_compute; reflexivity|].
  apply script_replaces. vm_compute; reflexivity.
Defined.

(** C4.  Emission and merge precedence of [to_dict]: the mapping it returns
    is a new container; a key of the keyword arguments maps to their
    (serialized) value; any other key of the extras maps to their (serialized)
    value; of the remaining keys, ["query"] is present exactly when a query is
    held and maps to its serialized form, ["script"] is present exactly when
    the script is non-empty and maps to it, and no other key is present. *)
Theorem to_dict_emission_and_precedence (h : heap) (b : loc)
    (q : option QueryNode) (s : value) (me kwargs : gmap string value) :
  state_of h b = Some (q, s, VDict me) →
  wp (UpdateByQuery.to_dict b kwargs) h (λ r h',
    ∃ d body, r = Ok d ∧ cells h !! d = None ∧ cells h' !! d = Some (VDict body) ∧
      ∀ key,
        body !! key =
          match kwargs !! key with
          | Some v => Some (recursive_to_dict v)
          | None =>
              match me !! key with
              | Some v => Some (recursive_to_dict v)
              | None =>
                  if decide (key = "query") then Query.to_dict <$> q
                  else if decide (key = "script") then
                         (if truthy s then Some s else None)
                  else None
              end
          end).
Proof.
  intros (o & Ho & <- & Hs & He)%state_of_inv.
  eapply wp_to_dict; [done..|]. intros d Hd.
  exists d, (body_of (_proxied o) s me kwargs).
  split; [done|]. split; [done|]. split; [cell_lookup|].
  intros key. apply body_of_lookup.
Qed.

Lemma to_dict_emission_and_precedence_witness :
  state_of example_store example_builder
  = Some (Some (Bool [] [Leaf "term" {[ "published" := VBool true ]}] []),
          VDict {[ "source" := VStr "ctx._source.likes++" ]},
          VDict {[ "size" := VInt 5 ]}) ∧
  wp (UpdateByQuery.to_dict example_builder {[ "size" := VInt 9 ]}) example_store
    (λ r h',
      ∃ d body, r = Ok d ∧ cells example_store !! d = None ∧
        cells h' !! d = Some (VDict body) ∧
        body !! "size" = Some (VInt 9) ∧
        body !! "script" = Some (VDict {[ "source" := VStr "ctx._source.likes++" ]})).
Proof.
  split; [vm_compute; reflexivity|].
  eapply wp_mono.
  - apply (to_dict_emission_and_precedence example_store example_builder
      (Some (Bool [] [Leaf "term" {[ "published" := VBool true ]}] []))
      (VDict {[ "source" := VStr "ctx._source.likes++" ]})
      {[ "size" := VInt 5 ]} {[ "size" := VInt 9 ]}).
    vm_compute; reflexivity.
  - intros r h' (d & body & Hr & Hd & Hb & Hk). exists d, body.
    split; [exact Hr|]. split; [exact Hd|]. split; [exact Hb|].
    split; [exact (Hk "size") | exact (Hk "script")].
Defined.

(** C5.  The exclude scenario: from any store,
    [UpdateByQuery().exclude("term", archived=True).to_dict()] returns a new
    mapping that is exactly the one of section 8, a [filter] clause holding
    the [must_not] wrapper of the term. *)
Theorem exclude_scenario_output (h : heap) :
  wp exclude_scenario h (λ r h',
    ∃ d, r = Ok d ∧ cells h !! d = None ∧
      cells h' !! d = Some (VDict exclude_scenario_body)).
Proof.
  unfold exclude_scenario.
  apply wp_bind, wp___init__. intros p e s b Hp He Hs Hpe Hps Hes Hb. simpl.
  apply wp_bind.
  eapply (wp_apply_mutator (MExclude (QName "term" {[ "archived" := VBool true ]})));
    [cell_lookup..| |].
  - intros q s' c ubq o' h' Heff Hext Hfresh Ho' Hcl.
    vm_compute in Heff. injection Heff as <- <- <-.
    destruct Hcl as (_ & _ & _ & Cq & _ & _ & _ & _ & Cs & Ce & _).
    cbn [cells _extra] in Ce.
    rewrite lookup_insert_ne, lookup_insert_eq in Ce by congruence.
    eapply wp_to_dict; [exact Ho' | exact Cs | exact Ce |]. intros d Hd. exists d.
    split; [reflexivity|]. split.
    + eapply ext_fresh_cell in Hd; [|exact Hext]. cbn [cells] in Hd.
      fresh_split Hd. exact Hd.
    + cbn [cells]. rewrite lookup_insert_eq, Cq. vm_compute. reflexivity.
  - intros Heff. vm_compute in Heff. discriminate.
Qed.

(** C6.  [update_from_dict]: the caller's mapping [d] holds the same entries
    afterwards, in every case.  When [d] has a ["query"] the query layer
    rejects, the call raises and no instance is changed.  Otherwise it returns
    [self], whose query is the parsed ["query"] of [d] (the old one when [d]
    has none), whose script is the ["script"] of [d] as it stands, held in a
    new container (the old container when [d] has none), and whose extras are
    updated with all the other entries of [d]; no other container and no other
    instance is changed. *)
Theorem update_from_dict_pops_and_passes_through (h : heap) (self d : loc)
    (o : UpdateByQuery) (md me : gmap string value) :
  objs h !! self = Some o →
  cells h !! d = Some (VDict md) →
  cells h !! _extra o = Some (VDict me) →
  wp (UpdateByQuery.update_from_dict self d) h (λ r h',
    cells h' !! d = Some (VDict md) ∧
    match md !! "query", md !! "query" ≫= Q_dict with
    | Some _, None =>
        r = Raise (ConstructionError "Q") ∧ objs h' = objs h ∧ ext h h'
    | _, parsed =>
        ∃ o', r = Ok self ∧ objs h' !! self = Some o' ∧
          _proxied o' = (if md !! "query" is Some _ then parsed else _proxied o) ∧
          match md !! "script" with
          | Some v => cells h !! _script o' = None ∧ cells h' !! _script o' = Some v
          | None => _script o' = _script o
          end ∧
          _extra o' = _extra o ∧
          cells h' !! _extra o' =
            Some (VDict (delete "script" (delete "query" md) ∪ me)) ∧
          (∀ l x, l ≠ _extra o → cells h !! l = Some x → cells h' !! l = Some x) ∧
          objs h' = <[self := o']> (objs h)
    end).
Proof. apply wp_update_from_dict. Qed.

Lemma update_from_dict_pops_and_passes_through_witness :
  objs wire_store !! example_builder = Some example_instance ∧
  cells wire_store !! wire_mapping
  = Some (VDict {[ "query" := VDict {[ "match_all" := VDict ∅ ]};
                   "script" := VDict {[ "source" := VStr "x" ]};
                   "conflicts" := VStr "proceed" ]}) ∧
  cells wire_store !! _extra example_instance = Some (VDict {[ "size" := VInt 5 ]}) ∧
  wp (UpdateByQuery.update_from_dict example_builder wire_mapping) wire_store
    (λ r h',
      cells h' !! wire_mapping
      = Some (VDict {[ "query" := VDict {[ "match_all" := VDict ∅ ]};
                       "script" := VDict {[ "source" := VStr "x" ]};
                       "conflicts" := VStr "proceed" ]})).
Proof.
  split; [vm_compute; reflexivity|].
  split; [vm_compute; reflexivity|].
  split; [vm_compute; reflexivity|].
  eapply wp_mono.
  - apply (update_from_dict_pops_and_passes_through wire_store example_builder
      wire_mapping example_instance
      {[ "query" := VDict {[ "match_all" := VDict ∅ ]};
         "script" := VDict {[ "source" := VStr "x" ]};
         "conflicts" := VStr "proceed" ]}
      {[ "size" := VInt 5 ]}).
    + vm_compute; reflexivity.
    + vm_compute; reflexivity.
    + vm_compute; reflexivity.
  - intros r h' [H _]. exact H.
Defined.

(** C7 (as amended).  Double negation: [negate (negate q)] is [q] for every
    query node [q] that is not a single [must_not] child which is again a
    single [must_not] child. *)
Theorem double_negation (q : QueryNode) :
  doubly_negated q = false → negate (negate q) = q.
Proof.
  destruct q as [kind params|must filter must_not]; [reflexivity|].
  destruct must, filter, must_not as [|c [|]]; try reflexivity.
  destruct c as [kind params|must filter must_not]; [reflexivity|].
  destruct must, filter, must_not as [|c [|]]; try reflexivity.
  discriminate.
Qed.

Lemma double_negation_witness :
  doubly_negated (Bool [] [] [Leaf "term" {[ "archived" := VBool true ]}]) = false ∧
  negate (negate (Bool [] [] [Leaf "term" {[ "archived" := VBool true ]}]))
  = Bool [] [] [Leaf "term" {[ "archived" := VBool true ]}].
Proof.
  split; [reflexivity|]. apply double_negation. reflexivity.
Defined.

(** C7 as stated fails on a doubly negated term: both wrappers are removed. *)
Lemma double_negation_counterexample :
  negate (negate (Bool [] [] [Bool [] [] [Leaf "term" {[ "archived" := VBool true ]}]]))
  = Leaf "term" {[ "archived" := VBool true ]} ∧
  negate (negate (Bool [] [] [Bool [] [] [Leaf "term" {[ "archived" := VBool true ]}]]))
  ≠ Bool [] [] [Bool [] [] [Leaf "term" {[ "archived" := VBool true ]}]].
Proof. split; [reflexivity|discriminate]. Qed.

(** C8.  [execute]: with the connection resolved, the transport receives
    exactly one call, with the index, the body [to_dict()] builds and the call
    parameters; there is no second call, whatever the first one does.  When
    that call raises, [execute] raises the same exception and no instance is
    changed: the builder has the state and the cached response, or none, it
    had.  When it returns, [execute] returns the reply wrapped in the
    builder's response class and the only change to the instances is that the
    builder caches that response.  In both cases every container is as it
    was. *)
Theorem execute_propagates_and_caches (registry : gmap string client) (self : loc)
    (o : UpdateByQuery) (s : value) (me mp : gmap string value) (c : client)
    (w : world) :
  objs (mem w) !! self = Some o →
  cells (mem w) !! _script o = Some s →
  cells (mem w) !! _extra o = Some (VDict me) →
  cells (mem w) !! _params o = Some (VDict mp) →
  registry !! _using o = Some c →
  wpw (UpdateByQuery.execute registry self) w (λ r w',
    calls w' = (calls w ++ [call_of o s me mp])%list ∧
    cells (mem w) ⊆ cells (mem w') ∧
    match c (calls w) (call_of o s me mp) with
    | Raise e => r = Raise e ∧ objs (mem w') = objs (mem w)
    | Ok raw =>
        let resp := {| r_class := _response_class o; r_search := self;
                       r_raw := raw |} in
        r = Ok resp ∧
        objs (mem w') = <[self := set_response (Some resp) o]> (objs (mem w))
    end).
Proof. apply wpw_execute. Qed.

Lemma execute_propagates_and_caches_witness :
  objs example_store !! example_builder = Some example_instance ∧
  wpw (UpdateByQuery.execute {[ "default" := flaky_client ]} example_builder)
    (World example_store []) (λ r w',
      r = Raise (TransportError "version conflict") ∧
      length (calls w') = 1 ∧
      objs (mem w') = objs example_store) ∧
  wpw (UpdateByQuery.execute {[ "default" := counting_client ]} example_builder)
    (World example_store []) (λ r w',
      ∃ resp, r = Ok resp ∧ r_raw resp = VDict {[ "updated" := VInt 3 ]} ∧
        length (calls w') = 1 ∧
        objs (mem w')
        = <[example_builder := set_response (Some resp) example_instance]>
            (objs example_store)).
Proof.
  split; [vm_compute; reflexivity|]. split.
  - eapply wpw_mono.
    + apply (execute_propagates_and_caches {[ "default" := flaky_client ]}
        example_builder example_instance
        (VDict {[ "source" := VStr "ctx._source.likes++" ]})
        {[ "size" := VInt 5 ]} ∅ flaky_client (World example_store []));
        vm_compute; reflexivity.
    + intros r w' (Hl & _ & Hr & Ho). split; [exact Hr|].
      split; [by rewrite Hl|exact Ho].
  - eapply wpw_mono.
    + apply (execute_propagates_and_caches {[ "default" := counting_client ]}
        example_builder example_instance
        (VDict {[ "source" := VStr "ctx._source.likes++" ]})
        {[ "size" := VInt 5 ]} ∅ counting_client (World example_store []));
        vm_compute; reflexivity.
    + intros r w' (Hl & _ & H1 & H2). eexists. split; [exact H1|].
      split; [reflexivity|]. split; [by rewrite Hl|exact H2].
Defined.

(** C9 (as amended).  [script()] without keyword arguments returns a builder
    with the query and the extras of the receiver and an empty script mapping;
    its [to_dict()] takes no ["script"] entry from the script: the key maps to
    what the extras hold under it, and is absent when they hold nothing. *)
Theorem script_without_arguments_erases (h : heap) (b : loc)
    (q : option QueryNode) (ms me : gmap string value) :
  wf h b = true →
  state_of h b = Some (q, VDict ms, VDict me) →
  wp (UpdateByQuery.script b ∅) h (λ r h',
    ∃ b' body, r = Ok b' ∧
      state_of h' b' = Some (q, VDict ∅, VDict me) ∧
      to_dict_view h' b' ∅ = Some (VDict body) ∧
      body !! "script" = recursive_to_dict <$> me !! "script").
Proof.
  intros (o & ms' & me' & mp & Ho & Hs & He & Hp)%wf_inv
         (o' & Ho' & <- & Hs' & He')%state_of_inv.
  rewrite Ho in Ho'. injection Ho' as <-.
  rewrite Hs in Hs'. injection Hs' as ->.
  rewrite He in He'. injection He' as ->.
  eapply wp_script; [done..|].
  intros b' o1 h' Hext Hfresh Ho1 C.
  destruct C as (_ & _ & _ & Cq & _ & _ & _ & _ & Cs & Ce & _).
  rewrite He in Ce.
  exists b', (body_of (_proxied o) (VDict ∅) me ∅).
  split; [done|]. split; [|split].
  - rewrite <-Cq. by eapply state_of_intro.
  - rewrite <-Cq. by eapply to_dict_view_eq.
  - rewrite body_of_lookup, lookup_empty.
    destruct (me !! "script"); [done|].
    unfold base_lookup. by repeat case_decide.
Qed.

Lemma script_without_arguments_erases_witness :
  wf example_store example_builder = true ∧
  state_of example_store example_builder
  = Some (Some (Bool [] [Leaf "term" {[ "published" := VBool true ]}] []),
          VDict {[ "source" := VStr "ctx._source.likes++" ]},
          VDict {[ "size" := VInt 5 ]}) ∧
  wp (UpdateByQuery.script example_builder ∅) example_store (λ r h',
    ∃ b' body, r = Ok b' ∧
      state_of h' b'
      = Some (Some (Bool [] [Leaf "term" {[ "published" := VBool true ]}] []),
              VDict ∅, VDict {[ "size" := VInt 5 ]}) ∧
      to_dict_view h' b' ∅ = Some (VDict body) ∧
      body !! "script" = None).
Proof.
  split; [vm_compute; reflexivity|]. split; [vm_compute; reflexivity|].
  eapply wp_mono.
  - apply (script_without_arguments_erases example_store example_builder
      (Some (Bool [] [Leaf "term" {[ "published" := VBool true ]}] []))
      {[ "source" := VStr "ctx._source.likes++" ]} {[ "size" := VInt 5 ]});
      vm_compute; reflexivity.
  - intros r h' (b' & body & H1 & H2 & H3 & H4). exists b', body.
    split; [exact H1|]. split; [exact H2|]. split; [exact H3|exact H4].
Defined.

(** C9 as stated fails when the extras carry a ["script"] key: the script
    mapping is erased, yet [to_dict()] has the key. *)
Lemma script_without_arguments_counterexample :
  wf shadowed_store shadowed_builder = true ∧
  state_of shadowed_store shadowed_builder
  = Some (None, VDict {[ "source" := VStr "a" ]},
          VDict {[ "script" := VDict {[ "source" := VStr "b" ]} ]}) ∧
  wp (b' ← UpdateByQuery.script shadowed_builder ∅; UpdateByQuery.to_dict b' ∅)
    shadowed_store (λ r h',
      ∃ d, r = Ok d ∧
        cells h' !! d
        = Some (VDict {[ "script" := VDict {[ "source" := VStr "b" ]} ]})).
Proof.
  split; [vm_compute; reflexivity|]. split; [vm_compute; reflexivity|].
  unfold wp. eexists. split; vm_compute; reflexivity.
Qed.

(** C10.  [to_dict] is a pure read: a call with keyword arguments returns a
    new container and changes no instance and no existing container; the
    builder holds the same query, script and extras, and a later call without
    arguments evaluates to the mapping it would have evaluated to before,
    which depends on that state alone and not on the earlier arguments. *)
Theorem to_dict_is_a_pure_read (h : heap) (b : loc) (q : option QueryNode)
    (s : value) (me kwargs : gmap string value) :
  state_of h b = Some (q, s, VDict me) →
  wp (UpdateByQuery.to_dict b kwargs) h (λ r h',
    ∃ d, r = Ok d ∧ cells h !! d = None ∧
      objs h' = objs h ∧
      (∀ l v, cells h !! l = Some v → cells h' !! l = Some v) ∧
      state_of h' b = Some (q, s, VDict me) ∧
      to_dict_view h' b ∅ = Some (VDict (body_of q s me ∅)) ∧
      to_dict_view h b ∅ = Some (VDict (body_of q s me ∅))).
Proof.
  intros (o & Ho & <- & Hs & He)%state_of_inv.
  eapply wp_to_dict; [done..|]. intros d Hd. exists d.
  assert (∀ l v, cells h !! l = Some v → <[d:=VDict (body_of (_proxied o) s me kwargs)]> (cells h) !! l = Some v) as F.
  { intros l v Hl. cell_lookup. }
  split; [done|]. split; [done|]. split; [done|]. split; [exact F|].
  split; [|split].
  - eapply state_of_intro; simpl; auto.
  - eapply to_dict_view_eq; simpl; auto.
  - by eapply to_dict_view_eq.
Qed.

Lemma to_dict_is_a_pure_read_witness :
  state_of example_store example_builder
  = Some (Some (Bool [] [Leaf "term" {[ "published" := VBool true ]}] []),
          VDict {[ "source" := VStr "ctx._source.likes++" ]},
          VDict {[ "size" := VInt 5 ]}) ∧
  wp (UpdateByQuery.to_dict example_builder {[ "refresh" := VBool true ]}) example_store
    (λ r h', to_dict_view h' example_builder ∅ = to_dict_view example_store example_builder ∅).
Proof.
  split; [vm_compute; reflexivity|].
  eapply wp_mono.
  - apply (to_dict_is_a_pure_read example_store example_builder
      (Some (Bool [] [Leaf "term" {[ "published" := VBool true ]}] []))
      (VDict {[ "source" := VStr "ctx._source.likes++" ]})
      {[ "size" := VInt 5 ]} {[ "refresh" := VBool true ]}).
    vm_compute; reflexivity.
  - intros r h' (d & _ & _ & _ & _ & _ & H1 & H2).
    exact (eq_trans H1 (eq_sym H2)).
Defined.

(** * Further properties of section 8 *)

(** The empty marker is the identity of [combine]. *)
Lemma combine_identity (q : option QueryNode) :
  combine None q = q ∧ combine q None = q.
Proof. by destruct q. Qed.

Example filter_scenario_output :
  wp filter_scenario fresh_store (λ r h',
    ∃ d, r = Ok d ∧
      cells h' !! d
      = Some (VDict {[ "query" :=
          VDict {[ "bool" :=
            VDict {[ "filter" := VList [
              VDict {[ "term" := VDict {[ "published" := VBool true ]} ]} ] ]} ]} ]})).
Proof. unfold wp. eexists. split; vm_compute; reflexivity. Qed.

Example from_dict_scenario_output :
  wp from_dict_scenario fresh_store (λ r h',
    ∃ d, r = Ok d ∧
      cells h' !! d
      = Some (VDict {[ "query" := VDict {[ "match_all" := VDict ∅ ]};
                       "script" := VDict {[ "source" := VStr "x" ]} ]})).
Proof. unfold wp. eexists. split; vm_compute; reflexivity. Qed.

(** * Further properties of the code *)

Lemma body_of_fresh (extra kwargs : gmap string value) :
  body_of None (VDict ∅) extra kwargs
  = (recursive_to_dict <$> kwargs) ∪ (recursive_to_dict <$> extra).
Proof.
  unfold body_of, script_part, query_part.
  assert (truthy (VDict ∅) = false) as ->.
  { unfold truthy. by rewrite bool_decide_eq_true_2. }
  by rewrite (right_id_L ∅ (∪)).
Qed.

(** X1.  The constructor: [UpdateByQuery(using, index, extra)] changes nothing
    that exists and returns a new instance with the default response class,
    no cached response, no query and an empty script; its [to_dict], for any keyword
    arguments, is the (serialized) extras overridden by those arguments,
    so the empty mapping when there are neither. *)
Theorem constructor_serializes_extras (h : heap) (using_ : string)
    (index : option (list string)) (extra : gmap string value) :
  wp (UpdateByQuery.__init__ using_ index extra) h (λ r h',
    ∃ b o, r = Ok b ∧ objs h !! b = None ∧ ext h h' ∧
      objs h' !! b = Some o ∧
      _using o = using_ ∧ _index o = index ∧
      _response_class o = UpdateByQueryResponse ∧ _response o = None ∧
      wf h' b = true ∧
      state_of h' b = Some (None, VDict ∅, VDict extra) ∧
      ∀ kwargs, to_dict_view h' b kwargs
                = Some (VDict ((recursive_to_dict <$> kwargs)
                               ∪ (recursive_to_dict <$> extra)))).
Proof.
  apply wp___init__. intros p e s b Hp He Hs Hpe Hps Hes Hb.
  set (o := {| _using := using_; _index := index; _params := p; _extra := e;
               _response_class := UpdateByQueryResponse; _script := s;
               _proxied := None; _response := None |}).
  exists b, o. split; [reflexivity|]. split; [exact Hb|]. split.
  { split; cbn [cells objs]; [repeat apply insert_subseteq_r; done
                             | by apply insert_subseteq]. }
  split; [cell_lookup|]. do 4 (split; [reflexivity|]).
  split; [|split].
  - apply (wf_intro _ b o ∅ extra ∅); cell_lookup.
  - apply (state_of_intro _ b o (VDict ∅) (VDict extra)); cell_lookup.
  - intros kwargs. rewrite <-body_of_fresh.
    apply (to_dict_view_eq _ b o (VDict ∅) extra); cell_lookup.
Qed.

(** X10.  [to_dict] reads the query, the script and the extras only: two
    builders that hold the same three serialize to the same mapping, whatever
    their connection, index, call parameters, response class and cached
    response. *)
Theorem to_dict_ignores_config (h1 h2 : heap) (b1 b2 : loc)
    (q : option QueryNode) (s : value) (me kwargs : gmap string value) :
  state_of h1 b1 = Some (q, s, VDict me) →
  state_of h2 b2 = Some (q, s, VDict me) →
  to_dict_view h1 b1 kwargs = to_dict_view h2 b2 kwargs ∧
  to_dict_view h1 b1 kwargs = Some (VDict (body_of q s me kwargs)).
Proof.
  intros (o1 & Ho1 & <- & Hs1 & He1)%state_of_inv
         (o2 & Ho2 & Hq & Hs2 & He2)%state_of_inv.
  rewrite (to_dict_view_eq h1 b1 o1 s me) by done.
  rewrite (to_dict_view_eq h2 b2 o2 s me) by done.
  by rewrite Hq.
Qed.

Lemma to_dict_ignores_config_witness :
  state_of reclassed_store example_builder
  = Some (Some (Bool [] [Leaf "term" {[ "published" := VBool true ]}] []),
          VDict {[ "source" := VStr "ctx._source.likes++" ]},
          VDict {[ "size" := VInt 5 ]}) ∧
  state_of reclassed_store reclassed_builder
  = Some (Some (Bool [] [Leaf "term" {[ "published" := VBool true ]}] []),
          VDict {[ "source" := VStr "ctx._source.likes++" ]},
          VDict {[ "size" := VInt 5 ]}) ∧
  to_dict_view reclassed_store example_builder ∅
  = to_dict_view reclassed_store reclassed_builder ∅.
Proof.
  split; [vm_compute; reflexivity|]. split; [vm_compute; reflexivity|].
  refine (proj1 (to_dict_ignores_config reclassed_store reclassed_store
    example_builder reclassed_builder
    (Some (Bool [] [Leaf "term" {[ "published" := VBool true ]}] []))
    (VDict {[ "source" := VStr "ctx._source.likes++" ]})
    {[ "size" := VInt 5 ]} ∅ _ _)); vm_compute; reflexivity.
Defined.

Lemma cloned_state (h h' : heap) (b' : loc) o o' q s c (me mp : gmap string value) :
  objs h' !! b' = Some o' →
  cells h !! _extra o = Some (VDict me) →
  cells h !! _params o = Some (VDict mp) →
  cloned h h' o o' q s c →
  state_of h' b' = Some (q, s, VDict me) ∧
  (∀ kwargs, to_dict_view h' b' kwargs = Some (VDict (body_of q s me kwargs))) ∧
  (is_dict s = true → wf h' b' = true).
Proof.
  intros Ho' He Hp (_ & _ & _ & Cq & _ & _ & _ & _ & Cs & Ce & Cp & _).
  rewrite He in Ce. rewrite Hp in Cp. split; [|split].
  - rewrite <-Cq. by apply state_of_intro.
  - intros kwargs. rewrite <-Cq. by apply to_dict_view_eq.
  - intros Hd. unfold wf, dict_at. rewrite Ho', Cs, Ce, Cp. simpl.
    by rewrite Hd.
Qed.

(** X4.  [_clone] returns a new instance, with new script, extras and
    parameter containers and no cached response, that holds the query, script
    and extras of the receiver: its [to_dict] is that of the receiver,
    for all keyword arguments. *)
Theorem clone_serializes_alike (h : heap) (b : loc) :
  wf h b = true →
  wp (UpdateByQuery._clone b) h (λ r h',
    ∃ b' o', r = Ok b' ∧ objs h !! b' = None ∧ ext h h' ∧
      objs h' !! b' = Some o' ∧ _response o' = None ∧
      cells h !! _script o' = None ∧ cells h !! _extra o' = None ∧
      cells h !! _params o' = None ∧
      wf h' b' = true ∧
      state_of h' b' = state_of h b ∧
      ∀ kwargs, to_dict_view h' b' kwargs = to_dict_view h b kwargs).
Proof.
  intros (o & ms & me & mp & Ho & Hs & He & Hp)%wf_inv.
  eapply wp__clone; [done..|]. intros b' o' h' Hext Hfresh Ho' C.
  destruct (cloned_state h h' b' o o' _ _ _ me mp Ho' He Hp C) as (St & V & W).
  destruct C as (_ & _ & _ & _ & Cr & Fs & Fe & Fp & _).
  exists b', o'. do 8 (split; [done|]). split; [by apply W|]. split.
  - rewrite St. symmetry. by apply state_of_intro.
  - intros kwargs. rewrite V. symmetry. by apply to_dict_view_eq.
Qed.

Lemma clone_serializes_alike_witness :
  wf example_store example_builder = true ∧
  wp (UpdateByQuery._clone example_builder) example_store (λ r h',
    ∃ b', r = Ok b' ∧
      to_dict_view h' b' ∅ = to_dict_view example_store example_builder ∅).
Proof.
  split; [vm_compute; reflexivity|].
  eapply wp_mono.
  - apply (clone_serializes_alike example_store example_builder).
    vm_compute; reflexivity.
  - intros r h' (b' & o' & Hr & _ & _ & _ & _ & _ & _ & _ & _ & _ & V).
    exists b'. split; [exact Hr|exact (V ∅)].
Defined.

(** X5.  A mutator followed by [to_dict]: the builder returned by an accepted
    [filter], [exclude], [script] or [response_class] holds the receiver's
    extras and what the mutator sets, and serializes accordingly; after
    [response_class] the mapping is the receiver's, after [script] with keyword
    arguments [kw] the script entry is [kw]. *)
Theorem mutator_then_to_dict (h : heap) (b : loc) (m : mutator)
    (o : UpdateByQuery) (ms me : gmap string value) :
  wf h b = true →
  objs h !! b = Some o →
  cells h !! _script o = Some (VDict ms) →
  cells h !! _extra o = Some (VDict me) →
  accepted m = true →
  wp (apply_mutator m b) h (λ r h',
    ∃ b' o' q s c,
      r = Ok b' ∧ objs h' !! b' = Some o' ∧
      mutator_effect m (_proxied o) (VDict ms) (_response_class o) = Some (q, s, c) ∧
      _response_class o' = c ∧
      state_of h' b' = Some (q, s, VDict me) ∧
      ∀ kwargs, to_dict_view h' b' kwargs = Some (VDict (body_of q s me kwargs))).
Proof.
  intros (o0 & ms0 & me0 & mp & Ho0 & Hs0 & He0 & Hp)%wf_inv Ho Hs He Ha.
  rewrite Ho in Ho0. injection Ho0 as <-.
  eapply wp_apply_mutator; [done..| |].
  - intros q s c b' o' h' Heff Hext Hfresh Ho' C.
    destruct (cloned_state h h' b' o o' _ _ _ me mp Ho' He Hp C) as (St & V & _).
    destruct C as (_ & _ & Cc & _).
    by exists b', o', q, s, c.
  - intros Heff.
    apply (accepted_effect _ (_proxied o) (VDict ms) (_response_class o)) in Ha.
    rewrite Heff in Ha. by destruct Ha.
Qed.

Lemma mutator_then_to_dict_witness :
  wf example_store example_builder = true ∧
  objs example_store !! example_builder = Some example_instance ∧
  wp (apply_mutator (MScript {[ "lang" := VStr "painless" ]}) example_builder)
    example_store (λ r h',
      ∃ b', r = Ok b' ∧
        state_of h' b'
        = Some (Some (Bool [] [Leaf "term" {[ "published" := VBool true ]}] []),
                VDict {[ "lang" := VStr "painless" ]},
                VDict {[ "size" := VInt 5 ]})).
Proof.
  split; [vm_compute; reflexivity|]. split; [vm_compute; reflexivity|].
  eapply wp_mono.
  - apply (mutator_then_to_dict example_store example_builder
      (MScript {[ "lang" := VStr "painless" ]}) example_instance
      {[ "source" := VStr "ctx._source.likes++" ]} {[ "size" := VInt 5 ]});
      vm_compute; reflexivity.
  - intros r h' (b' & o' & q & s & c & Hr & _ & Heff & _ & St & _).
    exists b'. split; [exact Hr|].
    vm_compute in Heff. injection Heff as <- <- <-. exact St.
Defined.

Lemma update_from_dict_frame (h : heap) (self d : loc) (o : UpdateByQuery)
    (md me : gmap string value) :
  objs h !! self = Some o →
  cells h !! d = Some (VDict md) →
  cells h !! _extra o = Some (VDict me) →
  wp (UpdateByQuery.update_from_dict self d) h (λ _ h',
    (∀ x, x ≠ self → objs h' !! x = objs h !! x) ∧
    (∀ l v, l ≠ _extra o → cells h !! l = Some v → cells h' !! l = Some v)).
Proof.
  intros Ho Hd He. eapply wp_mono; [by eapply wp_update_from_dict|].
  intros r h' [_ H]. cbv beta in H.
  destruct (md !! "query") as [v|]; simpl in H.
  - destruct (Q_dict v).
    + destruct H as (o' & _ & _ & _ & _ & _ & _ & F & Hobjs). split; [|done].
      intros x Hx. by rewrite Hobjs, lookup_insert_ne.
    + destruct H as (_ & Hobjs & Hext). split.
      * intros x _. by rewrite Hobjs.
      * intros l w _ Hl. by eapply ext_cell.
  - destruct H as (o' & _ & _ & _ & _ & _ & _ & F & Hobjs). split; [|done].
    intros x Hx. by rewrite Hobjs, lookup_insert_ne.
Qed.

Lemma frame_state (h h' : heap) (x : loc) (ox : UpdateByQuery) (s : value)
    (me : gmap string value) (l0 : loc) :
  objs h !! x = Some ox →
  cells h !! _script ox = Some s →
  cells h !! _extra ox = Some (VDict me) →
  objs h' !! x = objs h !! x →
  (∀ l v, l ≠ l0 → cells h !! l = Some v → cells h' !! l = Some v) →
  _script ox ≠ l0 → _extra ox ≠ l0 →
  state_of h' x = state_of h x ∧
  ∀ kwargs, to_dict_view h' x kwargs = to_dict_view h x kwargs.
Proof.
  intros Ho Hs He Hobj F N1 N2. rewrite Ho in Hobj.
  assert (cells h' !! _script ox = Some s) by by apply F.
  assert (cells h' !! _extra ox = Some (VDict me)) by by apply F.
  split.
  - rewrite (state_of_intro h x ox s (VDict me)) by done.
    by apply state_of_intro.
  - intros kwargs. rewrite (to_dict_view_eq h x ox s me) by done.
    by apply to_dict_view_eq.
Qed.

(** X6.  A builder and the builder a mutator returned from it share no
    mutable state: [update_from_dict], which works in place, applied to either
    of them leaves the instance, the state and the serialized form of the
    other as they were, whether it returns or raises. *)
Theorem clone_is_independent (h : heap) (b d : loc) (m : mutator)
    (md : gmap string value) :
  wf h b = true →
  accepted m = true →
  cells h !! d = Some (VDict md) →
  wp (apply_mutator m b) h (λ r h1,
    ∃ b', r = Ok b' ∧ b' ≠ b ∧
      wp (UpdateByQuery.update_from_dict b' d) h1 (λ _ h2,
        objs h2 !! b = objs h !! b ∧
        state_of h2 b = state_of h b ∧
        ∀ kwargs, to_dict_view h2 b kwargs = to_dict_view h b kwargs) ∧
      wp (UpdateByQuery.update_from_dict b d) h1 (λ _ h2,
        objs h2 !! b' = objs h1 !! b' ∧
        state_of h2 b' = state_of h1 b' ∧
        ∀ kwargs, to_dict_view h2 b' kwargs = to_dict_view h1 b' kwargs)).
Proof.
  intros (o & ms & me & mp & Ho & Hs & He & Hp)%wf_inv Ha Hd.
  eapply wp_apply_mutator; [done..| |].
  2:{ intros Heff.
      apply (accepted_effect _ (_proxied o) (VDict ms) (_response_class o)) in Ha.
      rewrite Heff in Ha. by destruct Ha. }
  intros q s c b' o' h1 Heff Hext Hfresh Ho' C.
  assert (b' ≠ b) as Hne by congruence.
  destruct C as (_ & _ & _ & _ & _ & Fs & Fe & Fp & Cs & Ce & Cp & _).
  rewrite He in Ce.
  pose proof (ext_obj _ _ _ _ Hext Ho) as Ho1.
  pose proof (ext_cell _ _ _ _ Hext Hs) as Hs1.
  pose proof (ext_cell _ _ _ _ Hext He) as He1.
  pose proof (ext_cell _ _ _ _ Hext Hd) as Hd1.
  exists b'. split; [done|]. split; [done|]. split.
  - eapply wp_mono; [by eapply (update_from_dict_frame h1 b' d o' md me)|].
    intros _ h2 [Fo Fc]. cbv beta.
    assert (objs h2 !! b = objs h1 !! b) as Hb by (apply Fo; congruence).
    destruct (frame_state h1 h2 b o (VDict ms) me (_extra o') Ho1 Hs1 He1 Hb Fc)
      as [St V]; [congruence..|].
    split; [by rewrite Hb, Ho1|]. split.
    + rewrite St. apply ext_state_of; [done|]. eexists. by eapply state_of_intro.
    + intros kwargs. rewrite V. by eapply ext_to_dict_view.
  - eapply wp_mono; [by eapply (update_from_dict_frame h1 b d o md me)|].
    intros _ h2 [Fo Fc]. cbv beta.
    assert (objs h2 !! b' = objs h1 !! b') as Hb by (apply Fo; congruence).
    destruct (frame_state h1 h2 b' o' s me (_extra o) Ho' Cs Ce Hb Fc)
      as [St V]; [congruence..|].
    done.
Qed.

Lemma clone_is_independent_witness :
  wf wire_store example_builder = true ∧
  wp (apply_mutator (MScript {[ "lang" := VStr "painless" ]}) example_builder)
    wire_store (λ r h1,
      ∃ b', r = Ok b' ∧
        wp (UpdateByQuery.update_from_dict b' wire_mapping) h1 (λ _ h2,
          state_of h2 example_builder = state_of wire_store example_builder)).
Proof.
  split; [vm_compute; reflexivity|].
  eapply wp_mono.
  - apply (clone_is_independent wire_store example_builder wire_mapping
      (MScript {[ "lang" := VStr "painless" ]})
      {[ "query" := VDict {[ "match_all" := VDict ∅ ]};
         "script" := VDict {[ "source" := VStr "x" ]};
         "conflicts" := VStr "proceed" ]});
      vm_compute; reflexivity.
  - intros r h1 (b' & Hr & _ & W & _). exists b'. split; [exact Hr|].
    eapply wp_mono; [exact W|]. intros _ h2 (_ & St & _). exact St.
Defined.

Lemma wp_conj {A} (m : M A) h (Φ Ψ : res A → heap → Prop) :
  wp m h Φ → wp m h Ψ → wp m h (λ r h', Φ r h' ∧ Ψ r h').
Proof. unfold wp. auto. Qed.

Lemma update_from_dict_config (h : heap) (self d : loc) (o : UpdateByQuery)
    (md me : gmap string value) :
  objs h !! self = Some o →
  cells h !! d = Some (VDict md) →
  cells h !! _extra o = Some (VDict me) →
  wp (UpdateByQuery.update_from_dict self d) h (λ r h',
    ∃ o', objs h' !! self = Some o' ∧ same_config o o').
Proof.
  intros Ho Hd He. unfold UpdateByQuery.update_from_dict.
  apply wp_bind. eapply wp_dict_copy; [done|]. intros d' Hd'. simpl.
  assert (d' ≠ d) by congruence. assert (d' ≠ _extra o) by congruence.
  apply wp_bind. eapply wp_dict_contains; [cell_lookup|]. simpl.
  apply wp_bind.
  destruct (md !! "query") as [v|] eqn:Eq; simpl.
  - apply wp_bind. eapply wp_dict_pop; [cell_lookup|done|]. simpl.
    apply wp_bind. destruct (Q_dict v) as [q|] eqn:EQ.
    2:{ apply wp_lift_none. by exists o. }
    apply wp_lift_some. simpl. rewrite insert_insert_eq.
    eapply wp_setattr; [done|]. simpl.
    apply wp_bind. eapply wp_dict_contains; [cell_lookup|]. simpl.
    rewrite lookup_delete_ne by done.
    apply wp_bind.
    destruct (md !! "script") as [w|] eqn:Es; simpl.
    + apply wp_bind. eapply wp_dict_pop; [cell_lookup| |].
      { by rewrite lookup_delete_ne. }
      simpl. rewrite insert_insert_eq.
      apply wp_bind, wp_alloc. intros s Hs. simpl in *. fresh_split Hs.
      eapply wp_setattr; [cell_lookup|]. simpl. rewrite insert_insert_eq.
      apply wp_bind. eapply wp_get_obj; [cell_lookup|]. simpl.
      apply wp_bind. eapply wp_load; [cell_lookup|]. simpl.
      apply wp_bind. eapply wp_dict_update; [cell_lookup|]. simpl.
      apply wp_ret. eexists. split; [cell_lookup|]. by destruct o.
    + apply wp_ret. simpl.
      apply wp_bind. eapply wp_get_obj; [cell_lookup|]. simpl.
      apply wp_bind. eapply wp_load; [cell_lookup|]. simpl.
      apply wp_bind. eapply wp_dict_update; [cell_lookup|]. simpl.
      apply wp_ret. eexists. split; [cell_lookup|]. by destruct o.
  - apply wp_ret. simpl.
    apply wp_bind. eapply wp_dict_contains; [cell_lookup|]. simpl.
    apply wp_bind.
    destruct (md !! "script") as [w|] eqn:Es; simpl.
    + apply wp_bind. eapply wp_dict_pop; [cell_lookup|done|].
      simpl. rewrite insert_insert_eq.
      apply wp_bind, wp_alloc. intros s Hs. simpl in *. fresh_split Hs.
      eapply wp_setattr; [cell_lookup|]. simpl.
      apply wp_bind. eapply wp_get_obj; [cell_lookup|]. simpl.
      apply wp_bind. eapply wp_load; [cell_lookup|]. simpl.
      apply wp_bind. eapply wp_dict_update; [cell_lookup|]. simpl.
      apply wp_ret. eexists. split; [cell_lookup|]. by destruct o.
    + apply wp_ret. simpl.
      apply wp_bind. eapply wp_get_obj; [cell_lookup|]. simpl.
      apply wp_bind. eapply wp_load; [cell_lookup|]. simpl.
      apply wp_bind. eapply wp_dict_update; [cell_lookup|]. simpl.
      apply wp_ret. exists o. split; [cell_lookup|]. by destruct o.
Qed.

Lemma from_dict_config (h : heap) (d : loc) (md : gmap string value) :
  cells h !! d = Some (VDict md) →
  wp (UpdateByQuery.from_dict d) h (λ r h',
    ∀ u, r = Ok u →
      ∃ o', objs h' !! u = Some o' ∧
        _using o' = "default" ∧ _index o' = None ∧
        _response_class o' = UpdateByQueryResponse ∧ _response o' = None).
Proof.
  intros Hd. unfold UpdateByQuery.from_dict.
  apply wp_bind, wp___init__. intros p e s u Hp He Hs Hpe Hps Hes Hu. simpl.
  apply wp_bind. eapply wp_mono.
  { eapply (update_from_dict_config _ u d _ md ∅).
    - cell_lookup.
    - cell_lookup.
    - cell_lookup. }
  intros [r|ex] h' (o' & Ho' & C); simpl; [|done].
  apply wp_ret. intros ? [= <-]. exists o'. split; [done|].
  destruct C as (-> & -> & _ & -> & ->). done.
Qed.

(** X2.  [from_dict(d)] leaves everything that exists, [d] included, as it
    was.  When [d] has a ["query"] the query layer rejects, it raises;
    otherwise it returns a new builder on the default connection, with no
    index, the default response class and no cached response, whose query is
    the parsed ["query"] (none when absent), whose script is the ["script"]
    entry (the empty mapping when absent) and whose extras are the other
    entries of [d]. *)
Theorem from_dict_builds (h : heap) (d : loc) (md : gmap string value) :
  cells h !! d = Some (VDict md) →
  wp (UpdateByQuery.from_dict d) h (λ r h',
    ext h h' ∧
    match md !! "query", md !! "query" ≫= Q_dict with
    | Some _, None => r = Raise (ConstructionError "Q")
    | _, parsed =>
        ∃ u o', r = Ok u ∧ objs h !! u = None ∧ objs h' !! u = Some o' ∧
          _using o' = "default" ∧ _index o' = None ∧
          _response_class o' = UpdateByQueryResponse ∧ _response o' = None ∧
          state_of h' u
          = Some (parsed, default (VDict ∅) (md !! "script"),
                  VDict (delete "script" (delete "query" md)))
    end).
Proof.
  intros Hd. eapply wp_mono.
  { apply wp_conj; [by apply wp_from_dict | by eapply from_dict_config]. }
  cbv beta. intros r h' [[Hext H] C]. split; [done|].
  destruct (md !! "query") as [v|]; simpl in *.
  - destruct (Q_dict v) as [q|]; [|done].
    destruct H as (u & o' & -> & Hu & Ho' & Hq & Hs & He & _).
    destruct (C u eq_refl) as (o'' & Ho'' & Cu & Ci & Cc & Cr).
    rewrite Ho' in Ho''. injection Ho'' as <-.
    exists u, o'. do 7 (split; [done|]).
    rewrite <-Hq. by apply state_of_intro.
  - destruct H as (u & o' & -> & Hu & Ho' & Hq & Hs & He & _).
    destruct (C u eq_refl) as (o'' & Ho'' & Cu & Ci & Cc & Cr).
    rewrite Ho' in Ho''. injection Ho'' as <-.
    exists u, o'. do 7 (split; [done|]).
    rewrite <-Hq. by apply state_of_intro.
Qed.

Lemma from_dict_builds_witness :
  cells wire_store !! wire_mapping
  = Some (VDict {[ "query" := VDict {[ "match_all" := VDict ∅ ]};
                   "script" := VDict {[ "source" := VStr "x" ]};
                   "conflicts" := VStr "proceed" ]}) ∧
  wp (UpdateByQuery.from_dict wire_mapping) wire_store (λ r h',
    ∃ u o', r = Ok u ∧ objs h' !! u = Some o' ∧ _using o' = "default" ∧
      state_of h' u
      = Some (Some (Leaf "match_all" ∅), VDict {[ "source" := VStr "x" ]},
              VDict {[ "conflicts" := VStr "proceed" ]})).
Proof.
  split; [vm_compute; reflexivity|].
  pose (md := ({[ "query" := VDict {[ "match_all" := VDict ∅ ]};
                  "script" := VDict {[ "source" := VStr "x" ]};
                  "conflicts" := VStr "proceed" ]} : gmap string value)).
  eapply wp_mono.
  - apply (from_dict_builds wire_store wire_mapping md).
    vm_compute; reflexivity.
  - intros r h' [_ H].
    assert (∃ u o', r = Ok u ∧ objs wire_store !! u = None ∧
              objs h' !! u = Some o' ∧
              _using o' = "default" ∧ _index o' = None ∧
              _response_class o' = UpdateByQueryResponse ∧ _response o' = None ∧
              state_of h' u
              = Some (md !! "query" ≫= Q_dict, default (VDict ∅) (md !! "script"),
                      VDict (delete "script" (delete "query" md))))
      as (u & o' & Hr & _ & Ho' & Hu & _ & _ & _ & St) by exact H.
    exists u, o'. split; [exact Hr|]. split; [exact Ho'|]. split; [exact Hu|].
    rewrite St. vm_compute. reflexivity.
Defined.

Lemma wire_body_eq (md : gmap string value) (parsed : option QueryNode) :
  Query.to_dict <$> parsed = md !! "query" →
  plain (VDict (delete "script" (delete "query" md))) = true →
  body_of parsed (default (VDict ∅) (md !! "script"))
          (delete "script" (delete "query" md)) ∅
  = round_tripped md.
Proof.
  intros Hq Hpl. rewrite body_of_no_kwargs, recursive_to_dict_plain_map by done.
  apply map_eq. intros k. rewrite lookup_union, base_lookup_eq.
  unfold base_lookup, round_tripped.
  destruct (decide (k = "query")) as [->|Hkq].
  { rewrite lookup_delete_ne, lookup_delete_eq by done. rewrite Hq. simpl.
    destruct (md !! "script") as [s|]; [destruct (truthy s)|];
      rewrite ?lookup_delete_ne by done; by destruct (md !! "query"). }
  destruct (decide (k = "script")) as [->|Hks].
  { rewrite lookup_delete_eq.
    destruct (md !! "script") as [s|] eqn:Es; simpl.
    - destruct (truthy s); [by rewrite Es|by rewrite lookup_delete_eq].
    - rewrite bool_decide_eq_true_2 by done. simpl. by rewrite Es. }
  rewrite !lookup_delete_ne by done.
  destruct (md !! "script") as [s|]; [destruct (truthy s)|];
    rewrite ?lookup_delete_ne by done; by destruct (md !! k).
Qed.

(** X3.  The wire round trip: for a mapping [d] whose ["query"], if any, is
    in the form the query layer serializes and whose other entries, the script
    apart, are plain data, [from_dict(d).to_dict()] is a new mapping with the
    entries of [d], except that a ["script"] entry that is not truthy (an
    empty mapping, say) is dropped. *)
Theorem from_dict_then_to_dict (h : heap) (d : loc) (md : gmap string value) :
  cells h !! d = Some (VDict md) →
  (∀ v, md !! "query" = Some v →
        ∃ q, Q_dict v = Some q ∧ Query.to_dict q = v) →
  plain (VDict (delete "script" (delete "query" md))) = true →
  wp (b ← UpdateByQuery.from_dict d; UpdateByQuery.to_dict b ∅) h (λ r h',
    ∃ out, r = Ok out ∧ cells h !! out = None ∧
      cells h' !! d = Some (VDict md) ∧
      cells h' !! out
      = Some (VDict (match md !! "script" with
                     | Some s => if truthy s then md else delete "script" md
                     | None => md
                     end))).
Proof.
  intros Hd HQ Hpl. apply wp_bind.
  eapply wp_mono; [by apply wp_from_dict|]. cbv beta.
  intros r h1 [Hext H].
  assert (∃ parsed, md !! "query" ≫= Q_dict = parsed ∧
            Query.to_dict <$> parsed = md !! "query" ∧
            (md !! "query" = None ∨ is_Some parsed)) as (parsed & Hp & Hq & Hcase).
  { destruct (md !! "query") as [v|] eqn:Eq; simpl.
    - destruct (HQ v eq_refl) as (q & -> & <-). exists (Some q). eauto.
    - exists None. eauto. }
  rewrite Hp in H.
  assert (∃ u o', r = Ok u ∧ objs h1 !! u = Some o' ∧ _proxied o' = parsed ∧
            cells h1 !! _script o' = Some (default (VDict ∅) (md !! "script")) ∧
            cells h1 !! _extra o'
            = Some (VDict (delete "script" (delete "query" md))))
    as (u & o' & -> & Ho' & Hpq & Hs & He).
  { destruct (md !! "query") as [v|]; [destruct parsed as [q|]|].
    - destruct H as (u & o' & ? & _ & ? & ? & ? & ? & _). by exists u, o'.
    - destruct Hcase as [?|[? ?]]; done.
    - destruct H as (u & o' & ? & _ & ? & ? & ? & ? & _). by exists u, o'. }
  eapply wp_to_dict; [done..|]. intros out Hout. exists out.
  split; [done|]. split; [by eapply ext_fresh_cell|]. split.
  - cbn [cells]. rewrite lookup_insert_ne.
    + by eapply ext_cell.
    + intros ->. eapply ext_cell in Hd; [|done]. congruence.
  - cbn [cells]. rewrite lookup_insert_eq, Hpq. f_equal. f_equal.
    by apply wire_body_eq.
Qed.

Lemma from_dict_then_to_dict_witness :
  cells wire_store !! wire_mapping
  = Some (VDict {[ "query" := VDict {[ "match_all" := VDict ∅ ]};
                   "script" := VDict {[ "source" := VStr "x" ]};
                   "conflicts" := VStr "proceed" ]}) ∧
  wp (b ← UpdateByQuery.from_dict wire_mapping; UpdateByQuery.to_dict b ∅)
    wire_store (λ r h',
      ∃ out, r = Ok out ∧
        cells h' !! out
        = Some (VDict {[ "query" := VDict {[ "match_all" := VDict ∅ ]};
                         "script" := VDict {[ "source" := VStr "x" ]};
                         "conflicts" := VStr "proceed" ]})).
Proof.
  split; [vm_compute; reflexivity|].
  pose (md := ({[ "query" := VDict {[ "match_all" := VDict ∅ ]};
                  "script" := VDict {[ "source" := VStr "x" ]};
                  "conflicts" := VStr "proceed" ]} : gmap string value)).
  eapply wp_mono.
  - apply (from_dict_then_to_dict wire_store wire_mapping md).
    + vm_compute; reflexivity.
    + intros v Hv. exists (Leaf "match_all" ∅).
      assert (Some v = Some (VDict {[ "match_all" := VDict ∅ ]})) as Hv'.
      { rewrite <-Hv. vm_compute. reflexivity. }
      injection Hv' as ->. split; vm_compute; reflexivity.
    + vm_compute; reflexivity.
  - intros r h' (out & Hr & _ & _ & Hout). exists out. split; [exact Hr|].
    rewrite Hout. vm_compute. reflexivity.
Defined.

(** X7.  [response_class(cls)] then [execute]: the transport receives one
    call, with the index, body and call parameters of the receiver; its
    exception is raised as it is; its reply comes back wrapped in [cls] with
    the new builder as owner and is cached on the new builder.  The receiver
    is unchanged: it caches nothing. *)
Theorem response_class_then_execute (registry : gmap string client) (w : world)
    (b : loc) (o : UpdateByQuery) (ms me mp : gmap string value)
    (cls : resp_class) (c : client) :
  objs (mem w) !! b = Some o →
  cells (mem w) !! _script o = Some (VDict ms) →
  cells (mem w) !! _extra o = Some (VDict me) →
  cells (mem w) !! _params o = Some (VDict mp) →
  registry !! _using o = Some c →
  wpw (b' ← in_store (UpdateByQuery.response_class b cls);
       UpdateByQuery.execute registry b') w (λ r w',
    objs (mem w') !! b = Some o ∧
    calls w' = (calls w ++ [call_of o (VDict ms) me mp])%list ∧
    match c (calls w) (call_of o (VDict ms) me mp) with
    | Raise e => r = Raise e
    | Ok raw =>
        ∃ b' o', r = Ok {| r_class := cls; r_search := b'; r_raw := raw |} ∧
          objs (mem w) !! b' = None ∧ objs (mem w') !! b' = Some o' ∧
          _response o' = Some {| r_class := cls; r_search := b'; r_raw := raw |}
    end).
Proof.
  intros Ho Hs He Hp Hc.
  apply wpw_bind, wpw_in_store. eapply wp_response_class; [done..|].
  intros b' o' h1 Hext Hfresh Ho' C.
  destruct C as (Cu & Ci & Cc & Cq & Cr & Fs & Fe & Fp & Cs & Ce & Cp & _).
  rewrite He in Ce. rewrite Hp in Cp.
  assert (b ≠ b') as Hne by congruence.
  assert (call_of o' (VDict ms) me mp = call_of o (VDict ms) me mp) as Hk.
  { unfold call_of. by rewrite Cu, Ci, Cq. }
  eapply wpw_mono.
  { eapply (wpw_execute registry b' o' (VDict ms) me mp c (World h1 (calls w)));
      [done..|]. by rewrite Cu. }
  cbv beta. intros r w' (Hl & Hsub & H). rewrite Hk in Hl, H.
  cbn [mem calls] in *. split; [|split; [done|]].
  - destruct (c (calls w) (call_of o (VDict ms) me mp)) as [raw|e].
    + cbv zeta in H. destruct H as [_ Hobjs].
      rewrite Hobjs, lookup_insert_ne by done. by eapply ext_obj.
    + destruct H as [_ Hobjs]. rewrite Hobjs. by eapply ext_obj.
  - destruct (c (calls w) (call_of o (VDict ms) me mp)) as [raw|e].
    + cbv zeta in H. destruct H as [-> Hobjs]. rewrite Cc in *.
      exists b', (set_response
        (Some {| r_class := cls; r_search := b'; r_raw := raw |}) o').
      split; [done|]. split; [done|]. split; [|done].
      by rewrite Hobjs, lookup_insert_eq.
    + by destruct H.
Qed.

Lemma response_class_then_execute_witness :
  objs example_store !! example_builder = Some example_instance ∧
  wpw (b' ← in_store (UpdateByQuery.response_class example_builder
                        (CustomResponse "Audit"));
       UpdateByQuery.execute {[ "default" := counting_client ]} b')
    (World example_store []) (λ r w',
      objs (mem w') !! example_builder = Some example_instance ∧
      length (calls w') = 1 ∧
      ∃ b', r = Ok {| r_class := CustomResponse "Audit"; r_search := b';
                      r_raw := VDict {[ "updated" := VInt 3 ]} |}).
Proof.
  split; [vm_compute; reflexivity|].
  eapply wpw_mono.
  - apply (response_class_then_execute {[ "default" := counting_client ]}
      (World example_store []) example_builder example_instance
      {[ "source" := VStr "ctx._source.likes++" ]} {[ "size" := VInt 5 ]} ∅
      (CustomResponse "Audit") counting_client); vm_compute; reflexivity.
  - intros r w' (Hb & Hl & H). split; [exact Hb|]. split; [by rewrite Hl|].
    destruct H as (b' & o' & Hr & _). exists b'. exact Hr.
Defined.

(** X8.  [execute] never reads the cached response: after a successful call,
    a second call resolves its connection again and calls the transport, once
    more and with the same index, body and parameters.  When that call
    returns, its reply replaces the cached response; when it raises, the
    exception is raised and the first response stays cached. *)
Theorem execute_again_replaces_cache (reg1 reg2 : gmap string client) (w : world)
    (b : loc) (o : UpdateByQuery) (s : value) (me mp : gmap string value)
    (c1 c2 : client) (raw1 : value) :
  objs (mem w) !! b = Some o →
  cells (mem w) !! _script o = Some s →
  cells (mem w) !! _extra o = Some (VDict me) →
  cells (mem w) !! _params o = Some (VDict mp) →
  reg1 !! _using o = Some c1 →
  reg2 !! _using o = Some c2 →
  c1 (calls w) (call_of o s me mp) = Ok raw1 →
  wpw (_ ← UpdateByQuery.execute reg1 b; UpdateByQuery.execute reg2 b) w
    (λ r w',
      calls w' = (calls w ++ [call_of o s me mp; call_of o s me mp])%list ∧
      match c2 (calls w ++ [call_of o s me mp])%list (call_of o s me mp) with
      | Raise e =>
          r = Raise e ∧
          objs (mem w')
          = <[b := set_response
                (Some {| r_class := _response_class o; r_search := b;
                         r_raw := raw1 |}) o]> (objs (mem w))
      | Ok raw2 =>
          r = Ok {| r_class := _response_class o; r_search := b; r_raw := raw2 |} ∧
          objs (mem w')
          = <[b := set_response
                (Some {| r_class := _response_class o; r_search := b;
                         r_raw := raw2 |}) o]> (objs (mem w))
      end).
Proof.
  intros Ho Hs He Hp Hc1 Hc2 Hraw.
  apply wpw_bind. eapply wpw_mono; [by eapply (wpw_execute reg1 b o s me mp c1)|].
  cbv beta. intros r w1 (Hl & Hsub & H). rewrite Hraw in H. cbv zeta in H.
  destruct H as [-> Hobjs].
  set (o1 := set_response
    (Some {| r_class := _response_class o; r_search := b; r_raw := raw1 |}) o) in *.
  eapply wpw_mono.
  { eapply (wpw_execute reg2 b o1 s me mp c2 w1).
    - by rewrite Hobjs, lookup_insert_eq.
    - by eapply lookup_weaken.
    - by eapply lookup_weaken.
    - by eapply lookup_weaken.
    - done. }
  cbv beta. intros r w' (Hl' & _ & H).
  change (call_of o1 s me mp) with (call_of o s me mp) in *.
  rewrite Hl in Hl', H. subst o1. simpl in H. split.
  - by rewrite Hl', <-app_assoc.
  - destruct (c2 (calls w ++ [call_of o s me mp])%list (call_of o s me mp)) as [raw2|e].
    + destruct H as [-> ->]. split; [done|]. by rewrite Hobjs, insert_insert_eq.
    + destruct H as [-> ->]. done.
Qed.

Lemma execute_again_replaces_cache_witness :
  objs example_store !! example_builder = Some example_instance ∧
  wpw (_ ← UpdateByQuery.execute {[ "default" := counting_client ]} example_builder;
       UpdateByQuery.execute {[ "default" := failing_client ]} example_builder)
    (World example_store []) (λ r w',
      r = Raise (TransportError "version conflict") ∧
      length (calls w') = 2 ∧
      objs (mem w')
      = <[example_builder := set_response
            (Some {| r_class := UpdateByQueryResponse;
                     r_search := example_builder;
                     r_raw := VDict {[ "updated" := VInt 3 ]} |})
            example_instance]> (objs example_store)).
Proof.
  split; [vm_compute; reflexivity|].
  eapply wpw_mono.
  - apply (execute_again_replaces_cache {[ "default" := counting_client ]}
      {[ "default" := failing_client ]} (World example_store []) example_builder
      example_instance (VDict {[ "source" := VStr "ctx._source.likes++" ]})
      {[ "size" := VInt 5 ]} ∅ counting_client failing_client
      (VDict {[ "updated" := VInt 3 ]})); vm_compute; reflexivity.
  - intros r w' (Hl & H). destruct H as [Hr Ho].
    split; [exact Hr|]. split; [by rewrite Hl|exact Ho].
Defined.

Lemma wp__clone_scalar (h : heap) (b : loc) (o : UpdateByQuery) (s : value)
    (me mp : gmap string value) (Φ : res loc → heap → Prop) :
  objs h !! b = Some o →
  cells h !! _script o = Some s → scalar s = true →
  cells h !! _extra o = Some (VDict me) →
  cells h !! _params o = Some (VDict mp) →
  (∀ h', ext h h' → Φ (Raise (AttributeError "copy")) h') →
  wp (UpdateByQuery._clone b) h Φ.
Proof.
  intros Ho Hs Hsc He Hp H. unfold UpdateByQuery._clone, Request._clone.
  apply wp_bind, wp_bind. eapply wp_get_obj; [done|]. simpl.
  apply wp_bind, wp___init__. intros p0 e0 s0 u Hp0 He0 Hs0 ? ? ? Hu. simpl.
  apply wp_bind. eapply wp_dict_copy; [cell_lookup|]. intros e1 He1. simpl in *.
  fresh_split He1.
  apply wp_bind. eapply wp_setattr; [cell_lookup|]. simpl.
  apply wp_bind. eapply wp_dict_copy; [cell_lookup|]. intros p1 Hp1. simpl in *.
  fresh_split Hp1.
  apply wp_bind. eapply wp_setattr; [cell_lookup|]. simpl.
  apply wp_ret. simpl.
  assert (b ≠ u) by congruence.
  apply wp_bind. eapply wp_get_obj; [cell_lookup|]. simpl.
  apply wp_bind. eapply wp_setattr; [cell_lookup|]. simpl.
  apply wp_bind. eapply wp_get_obj; [cell_lookup|]. simpl.
  apply wp_bind. unfold dict_copy.
  apply wp_bind. eapply wp_load; [cell_lookup|]. simpl.
  destruct s; try discriminate; apply wp_raise; simpl.
  all: apply H; split; cbn [cells objs];
    [repeat apply insert_subseteq_r; done
    | rewrite !insert_insert_eq; by apply insert_subseteq].
Qed.

(** X9.  A builder whose script is a JSON scalar (as [update_from_dict] leaves
    it when the wire mapping gives the script as a string) still serializes,
    but cannot be cloned: every mutator, given a term the query layer accepts,
    raises [AttributeError] at [self._script.copy()]; nothing that exists is
    changed. *)
Theorem scalar_script_breaks_mutators (h : heap) (b : loc) (o : UpdateByQuery)
    (s : value) (me mp : gmap string value) (m : mutator) :
  objs h !! b = Some o →
  cells h !! _script o = Some s → scalar s = true →
  cells h !! _extra o = Some (VDict me) →
  cells h !! _params o = Some (VDict mp) →
  accepted m = true →
  wp (apply_mutator m b) h (λ r h',
    r = Raise (AttributeError "copy") ∧ ext h h') ∧
  to_dict_view h b ∅ = Some (VDict (body_of (_proxied o) s me ∅)).
Proof.
  intros Ho Hs Hsc He Hp Ha. split; [|by apply to_dict_view_eq].
  assert (∀ a, is_Some (Q a) →
            wp (UpdateByQuery.query b a) h (λ r h',
              r = Raise (AttributeError "copy") ∧ ext h h')) as Hquery.
  { intros a _. unfold UpdateByQuery.query. apply wp_bind.
    eapply wp__clone_scalar; [done..|]. intros h' Hext. done. }
  destruct m as [a|a|kwargs|cls]; cbn [apply_mutator accepted] in *.
  - apply bool_decide_eq_true in Ha as [t Ht].
    unfold UpdateByQuery.filter. apply wp_bind. rewrite Ht.
    apply wp_lift_some. cbv beta iota. apply Hquery. by eexists.
  - apply bool_decide_eq_true in Ha as [t Ht].
    unfold UpdateByQuery.exclude. apply wp_bind. rewrite Ht.
    apply wp_lift_some. cbv beta iota. apply Hquery. by eexists.
  - unfold UpdateByQuery.script. apply wp_bind.
    eapply wp__clone_scalar; [done..|]. intros h' Hext. done.
  - unfold UpdateByQuery.response_class. apply wp_bind.
    eapply wp__clone_scalar; [done..|]. intros h' Hext. done.
Qed.

Lemma scalar_script_breaks_mutators_witness :
  objs string_script_store !! string_script_builder = Some string_script_instance ∧
  cells string_script_store !! _script string_script_instance
  = Some (VStr "ctx._source.likes++") ∧
  wp (UpdateByQuery.script string_script_builder {[ "lang" := VStr "painless" ]})
    string_script_store (λ r h', r = Raise (AttributeError "copy")) ∧
  to_dict_view string_script_store string_script_builder ∅
  = Some (VDict {[ "script" := VStr "ctx._source.likes++" ]}).
Proof.
  split; [vm_compute; reflexivity|]. split; [vm_compute; reflexivity|].
  destruct (scalar_script_breaks_mutators string_script_store string_script_builder
    string_script_instance (VStr "ctx._source.likes++") ∅ ∅
    (MScript {[ "lang" := VStr "painless" ]})) as [W V];
    [vm_compute; reflexivity..|].
  split.
  - eapply wp_mono; [exact W|]. intros r h' [Hr _]. exact Hr.
  - rewrite V. vm_compute. reflexivity.
Defined.

Lemma snapshot_intro h b o s e p :
  objs h !! b = Some o → cells h !! _script o = Some s →
  cells h !! _extra o = Some e → cells h !! _params o = Some p →
  snapshot h b
  = Some (_using o, _index o, _response_class o, _response o, _proxied o, s, e, p).
Proof.
  unfold snapshot. intros Ho Hs He Hp.
  rewrite Ho. simpl. rewrite Hs. simpl. rewrite He. simpl. by rewrite Hp.
Qed.

Lemma mutator_effect_dict m q (ms : gmap string value) c q' s' c' :
  mutator_effect m q (VDict ms) c = Some (q', s', c') → ∃ ms', s' = VDict ms'.
Proof.
  destruct m as [a|a|kwargs|cls]; simpl.
  - destruct (Q a); simpl; [|done]. intros [= <- <- <-]. eauto.
  - destruct (Q a); simpl; [|done]. intros [= <- <- <-]. eauto.
  - intros [= <- <- <-]. eauto.
  - intros [= <- <- <-]. eauto.
Qed.

Lemma wp_mutator_snapshot (h : heap) (b : loc) (m : mutator) (o : UpdateByQuery)
    (ms me mp : gmap string value) :
  objs h !! b = Some o →
  cells h !! _script o = Some (VDict ms) →
  cells h !! _extra o = Some (VDict me) →
  cells h !! _params o = Some (VDict mp) →
  accepted m = true →
  wp (apply_mutator m b) h (λ r h',
    ∃ b' o' q ms' c,
      r = Ok b' ∧
      mutator_effect m (_proxied o) (VDict ms) (_response_class o)
      = Some (q, VDict ms', c) ∧
      objs h' !! b' = Some o' ∧
      cells h' !! _script o' = Some (VDict ms') ∧
      cells h' !! _extra o' = Some (VDict me) ∧
      cells h' !! _params o' = Some (VDict mp) ∧
      _using o' = _using o ∧ _index o' = _index o ∧
      _response_class o' = c ∧ _proxied o' = q ∧ _response o' = None).
Proof.
  intros Ho Hs He Hp Ha.
  eapply wp_apply_mutator; [done..| |].
  - intros q s c b' o' h' Heff Hext Hfresh Ho' C.
    destruct (mutator_effect_dict _ _ _ _ _ _ _ Heff) as [ms' ->].
    destruct C as (Cu & Ci & Cc & Cq & Cr & _ & _ & _ & Cs & Ce & Cp & _).
    rewrite He in Ce. rewrite Hp in Cp.
    exists b', o', q, ms', c. by repeat split.
  - intros Heff.
    apply (accepted_effect _ (_proxied o) (VDict ms) (_response_class o)) in Ha.
    rewrite Heff in Ha. by destruct Ha.
Qed.

Lemma mutator_effect_commute m1 m2 q s c q1 s1 c1 q12 s12 c12 :
  field_of m1 ≠ field_of m2 →
  mutator_effect m1 q s c = Some (q1, s1, c1) →
  mutator_effect m2 q1 s1 c1 = Some (q12, s12, c12) →
  ∃ q2 s2 c2, mutator_effect m2 q s c = Some (q2, s2, c2) ∧
              mutator_effect m1 q2 s2 c2 = Some (q12, s12, c12).
Proof.
  intros Hf H1 H2.
  destruct m1 as [a1|a1|k1|cls1], m2 as [a2|a2|k2|cls2];
    cbn [field_of] in Hf; try done; cbn [mutator_effect] in *;
    try (destruct (Q a1) as [t1|]; cbn [mbind option_bind] in *; [|done]);
    try (destruct (Q a2) as [t2|]; cbn [mbind option_bind] in *; [|done]);
    simplify_eq; eauto.
Qed.

(** X11.  Mutators that set different fields commute: of [filter]/[exclude],
    [script] and [response_class], two that do not set the same field, called
    in either order, return builders that hold the same connection, index,
    response class, query, script, extras and call parameters, and serialize
    alike. *)
Theorem mutators_on_different_fields_commute (h : heap) (b : loc)
    (m1 m2 : mutator) :
  wf h b = true →
  accepted m1 = true → accepted m2 = true →
  field_of m1 ≠ field_of m2 →
  wp (chain m1 m2 b) h (λ r12 h12,
    wp (chain m2 m1 b) h (λ r21 h21,
      ∃ b12 b21, r12 = Ok b12 ∧ r21 = Ok b21 ∧
        is_Some (snapshot h12 b12) ∧
        snapshot h12 b12 = snapshot h21 b21 ∧
        ∀ kwargs, to_dict_view h12 b12 kwargs = to_dict_view h21 b21 kwargs)).
Proof.
  intros (o & ms & me & mp & Ho & Hs & He & Hp)%wf_inv Ha1 Ha2 Hf.
  unfold chain. apply wp_bind.
  eapply wp_mono; [by eapply (wp_mutator_snapshot h b m1 o ms me mp)|].
  cbv beta. intros r1 h1 (b1 & o1 & q1 & ms1 & c1 & -> & E1 & Ho1 & Hs1 & He1 & Hp1
                          & U1 & I1 & C1 & Q1 & R1).
  eapply wp_mono; [by eapply (wp_mutator_snapshot h1 b1 m2 o1 ms1 me mp)|].
  cbv beta. intros r12 h12 (b12 & o12 & q12 & ms12 & c12 & -> & E12 & Ho12 & Hs12
                            & He12 & Hp12 & U12 & I12 & C12 & Q12 & R12).
  rewrite Q1, C1 in E12.
  destruct (mutator_effect_commute m1 m2 _ _ _ _ _ _ _ _ _ Hf E1 E12)
    as (q2 & s2 & c2 & E2 & E21).
  apply wp_bind.
  eapply wp_mono; [by eapply (wp_mutator_snapshot h b m2 o ms me mp)|].
  cbv beta. intros r2 h2 (b2 & o2 & q2' & ms2 & c2' & -> & E2' & Ho2 & Hs2 & He2
                          & Hp2 & U2 & I2 & C2 & Q2 & R2).
  rewrite E2 in E2'. injection E2' as <- -> <-.
  eapply wp_mono; [by eapply (wp_mutator_snapshot h2 b2 m1 o2 ms2 me mp)|].
  cbv beta. intros r21 h21 (b21 & o21 & q21 & ms21 & c21 & -> & E21' & Ho21 & Hs21
                            & He21 & Hp21 & U21 & I21 & C21 & Q21 & R21).
  rewrite Q2, C2, E21 in E21'. injection E21' as <- <- <-.
  exists b12, b21. split; [done|]. split; [done|].
  rewrite (snapshot_intro h12 b12 o12 _ _ _ Ho12 Hs12 He12 Hp12).
  rewrite (snapshot_intro h21 b21 o21 _ _ _ Ho21 Hs21 He21 Hp21).
  split; [by eexists|]. split.
  - by rewrite U12, U1, U21, U2, I12, I1, I21, I2, C12, C21, R12, R21, Q12, Q21.
  - intros kwargs.
    rewrite (to_dict_view_eq h12 b12 o12 _ me) by done.
    rewrite (to_dict_view_eq h21 b21 o21 _ me) by done.
    by rewrite Q12, Q21.
Qed.

Lemma mutators_on_different_fields_commute_witness :
  wf example_store example_builder = true ∧
  wp (chain (MScript {[ "lang" := VStr "painless" ]})
            (MExclude (QName "term" {[ "archived" := VBool true ]}))
            example_builder) example_store (λ r12 h12,
    wp (chain (MExclude (QName "term" {[ "archived" := VBool true ]}))
              (MScript {[ "lang" := VStr "painless" ]})
              example_builder) example_store (λ r21 h21,
      ∃ b12 b21, r12 = Ok b12 ∧ r21 = Ok b21 ∧
        snapshot h12 b12 = snapshot h21 b21)).
Proof.
  split; [vm_compute; reflexivity|].
  eapply wp_mono.
  - apply (mutators_on_different_fields_commute example_store example_builder
      (MScript {[ "lang" := VStr "painless" ]})
      (MExclude (QName "term" {[ "archived" := VBool true ]})));
      [vm_compute; reflexivity..|discriminate].
  - intros r12 h12 W. eapply wp_mono; [exact W|].
    intros r21 h21 (b12 & b21 & H1 & H2 & _ & H3 & _).
    exists b12, b21. split; [exact H1|]. split; [exact H2|exact H3].
Defined.
